(** * UKV: the RocksDB backend and the graph neighbourship order

    A shallow embedding of [src/src/backend_rocksdb.cpp] (the C ABI of the
    key-value store bound to RocksDB), of [neighborship_t] and the
    neighbourhood helpers of [src/include/ukv_graph.hpp], and of the
    bookkeeping of [src/tests/stress_serializable_transactions.cpp].

    Conventions of the embedding:
    - [ukv_key_t] (uint64), [ukv_val_len_t] (uint32) and bytes are [Z];
      counts and indices ([ukv_size_t] loop counters) are [nat];
    - a pointer is [0] / [None] when it is NULL;
    - an out-parameter ([*c_error], [*c_found_lengths], ...) is threaded: the
      function takes what the caller's variable holds and returns what it
      holds afterwards, so "not written" is "returned unchanged";
    - a step C++ leaves undefined (a null dereference, a read through a
      deleted handle) or that leaves the array it indexes (a task past the
      caller's arrays, a store past the slots of an output array) ends the
      run with [Fault];
    - RocksDB is outside the repository: module [Rocks] is a reference model
      of the part of its interface the backend calls, with the statuses a
      call can come back with injected by the host ([host_t]). *)

From Stdlib Require Import ZArith List String Bool Lia.
Import ListNotations.
Local Open Scope Z_scope.

(** ** Scalars of the ABI *)

Definition ukv_key_t := Z.
Definition ukv_val_len_t := Z.
Definition byte_t := Z.
Definition ukv_collection_t := nat.
Definition ukv_options_t := Z.
Definition ukv_error_t := option string.
Definition ukv_str_view_t := option string.

Definition ukv_default_collection_k : ukv_collection_t := 0%nat.
Definition ukv_val_len_missing_k : ukv_val_len_t := 2 ^ 32 - 1.
Definition ukv_key_unknown_k : ukv_key_t := 2 ^ 64 - 1.

(** ** [neighborship_t] (ukv_graph.hpp) *)

Module Graph.

Record neighborship_t := { neighbor_id : ukv_key_t; edge_id : ukv_key_t }.

(** [operator<(neighborship_t, neighborship_t)]; [|] on [bool] is [orb]. *)
Definition lt (a b : neighborship_t) : bool :=
  (neighbor_id a <? neighbor_id b)
  || ((neighbor_id a =? neighbor_id b) || (edge_id a <? edge_id b)).

(** [operator==(neighborship_t, neighborship_t)]; [&] on [bool] is [andb]. *)
Definition eq (a b : neighborship_t) : bool :=
  (neighbor_id a =? neighbor_id b) && (edge_id a <? edge_id b).

(** The lexicographic order on [(neighbor_id, edge_id)], for comparison. *)
Definition lex_lt (a b : neighborship_t) : bool :=
  (neighbor_id a <? neighbor_id b)
  || ((neighbor_id a =? neighbor_id b) && (edge_id a <? edge_id b)).

End Graph.

(** ** Reference model of the RocksDB interface *)

Module Rocks.

Inductive Code :=
| kOk | kNotFound | kCorruption | kIOError | kInvalidArgument | kBusy.

Definition Status := Code.

Definition ok (s : Status) : bool :=
  match s with kOk => true | _ => false end.
Definition IsNotFound (s : Status) : bool :=
  match s with kNotFound => true | _ => false end.
Definition IsCorruption (s : Status) : bool :=
  match s with kCorruption => true | _ => false end.
Definition IsIOError (s : Status) : bool :=
  match s with kIOError => true | _ => false end.
Definition IsInvalidArgument (s : Status) : bool :=
  match s with kInvalidArgument => true | _ => false end.

(** A slice is a run of bytes. *)
Definition Slice := list byte_t.

(** [BytewiseComparator()], the comparator of default-constructed options. *)
Fixpoint Compare (a b : Slice) : comparison :=
  match a, b with
  | [], [] => Eq
  | [], _ :: _ => Lt
  | _ :: _, [] => Gt
  | x :: a', y :: b' =>
      match x ?= y with
      | Eq => Compare a' b'
      | c => c
      end
  end.

(** The rows of one column family, kept in comparator order. *)
Definition Rows := list (Slice * Slice).

Fixpoint rows_put (k v : Slice) (rows : Rows) : Rows :=
  match rows with
  | [] => [(k, v)]
  | (k', v') :: rest =>
      match Compare k k' with
      | Lt => (k, v) :: rows
      | Eq => (k, v) :: rest
      | Gt => (k', v') :: rows_put k v rest
      end
  end.

Fixpoint rows_delete (k : Slice) (rows : Rows) : Rows :=
  match rows with
  | [] => []
  | (k', v') :: rest =>
      match Compare k k' with
      | Lt => rows
      | Eq => rest
      | Gt => (k', v') :: rows_delete k rest
      end
  end.

Fixpoint rows_get (k : Slice) (rows : Rows) : option Slice :=
  match rows with
  | [] => None
  | (k', v') :: rest =>
      match Compare k k' with
      | Eq => Some v'
      | _ => rows_get k rest
      end
  end.

(** [Seek(target)]: the rows from the first key at or past [target]. *)
Fixpoint rows_seek (target : Slice) (rows : Rows) : Rows :=
  match rows with
  | [] => []
  | (k', v') :: rest =>
      match Compare k' target with
      | Lt => rows_seek target rest
      | _ => rows
      end
  end.


(** *** Column families, handles and the database *)

Record ColumnFamilyData := { cf_name : string; cf_rows : Rows }.

(** A [ColumnFamilyHandle*]: the address of a handle object, [0] for
    [nullptr]. *)
Definition ColumnFamilyHandle := nat.

(** The database: its column families (a family's id is its position),
    the handle objects that are alive with the family each one names, and
    the address the next handle object gets. *)
Record DB := {
  families : list ColumnFamilyData;
  handles : list (ColumnFamilyHandle * nat);
  next_handle : nat
}.

Definition kDefaultColumnFamilyName : string := "default".

(** [DefaultColumnFamily()]: the handle the database owns for family 0. *)
Definition DefaultColumnFamily (d : DB) : ColumnFamilyHandle := 1%nat.

Definition resolve (d : DB) (h : ColumnFamilyHandle) : option nat :=
  match find (fun p => Nat.eqb (fst p) h) (handles d) with
  | Some (_, f) => Some f
  | None => None
  end.

Definition family_of (fams : list ColumnFamilyData) (d : DB)
    (h : ColumnFamilyHandle) : option ColumnFamilyData :=
  match resolve d h with
  | Some f => nth_error fams f
  | None => None
  end.

(** [handle->GetName()]. *)
Definition GetName (d : DB) (h : ColumnFamilyHandle) : option string :=
  option_map cf_name (family_of (families d) d h).

Fixpoint update_family (f : nat) (g : Rows -> Rows)
    (fams : list ColumnFamilyData) : list ColumnFamilyData :=
  match fams, f with
  | [], _ => []
  | c :: rest, O => {| cf_name := cf_name c; cf_rows := g (cf_rows c) |} :: rest
  | c :: rest, S f' => c :: update_family f' g rest
  end.

Definition with_families (d : DB) (fams : list ColumnFamilyData) : DB :=
  {| families := fams; handles := handles d; next_handle := next_handle d |}.

Record ReadOptions := {
  snapshot : option (list ColumnFamilyData);
  fill_cache : bool
}.

Record WriteOptions := { sync : bool }.

Record TransactionOptions := { set_snapshot : bool }.

(** *** Write batches *)

Inductive BatchOp :=
| BPut (h : ColumnFamilyHandle) (k v : Slice)
| BDelete (h : ColumnFamilyHandle) (k : Slice)
| BSingleDelete (h : ColumnFamilyHandle) (k : Slice).

(** A [WriteBatch], in the order its operations were recorded. *)
Definition WriteBatch := list BatchOp.

Definition op_handle (op : BatchOp) : ColumnFamilyHandle :=
  match op with BPut h _ _ | BDelete h _ | BSingleDelete h _ => h end.

Definition op_key (op : BatchOp) : Slice :=
  match op with BPut _ k _ | BDelete _ k | BSingleDelete _ k => k end.

(** What an operation does to the rows of its family. [SingleDelete] is
    defined by RocksDB for a key put once since its last deletion, and has
    the meaning of [Delete] there. *)
Definition op_rows (op : BatchOp) : Rows -> Rows :=
  match op with
  | BPut _ k v => rows_put k v
  | BDelete _ k => rows_delete k
  | BSingleDelete _ k => rows_delete k
  end.

Definition apply_op (d : DB) (fams : list ColumnFamilyData) (op : BatchOp)
    : option (list ColumnFamilyData) :=
  match resolve d (op_handle op) with
  | Some f =>
      match nth_error fams f with
      | Some _ => Some (update_family f (op_rows op) fams)
      | None => None
      end
  | None => None
  end.

Fixpoint apply_batch (d : DB) (fams : list ColumnFamilyData)
    (batch : WriteBatch) : option (list ColumnFamilyData) :=
  match batch with
  | [] => Some fams
  | op :: rest =>
      match apply_op d fams op with
      | Some fams' => apply_batch d fams' rest
      | None => None
      end
  end.

(** [db->Write(options, &batch)]: the whole batch or nothing. [inj] is the
    status the storage layer answers with; an operation on a handle that
    names no family is refused. *)
Definition Write (inj : Status) (wo : WriteOptions) (batch : WriteBatch)
    (d : DB) : Status * DB :=
  if ok inj then
    match apply_batch d (families d) batch with
    | Some fams => (kOk, with_families d fams)
    | None => (kInvalidArgument, d)
    end
  else (inj, d).

(** [DB::Put], [DB::Delete] and [DB::SingleDelete] are one-operation
    batches handed to [Write]. *)
Definition Put inj wo h k v d := Write inj wo [BPut h k v] d.
Definition Delete inj wo h k d := Write inj wo [BDelete h k] d.
Definition SingleDelete inj wo h k d := Write inj wo [BSingleDelete h k] d.

(** *** Reads *)

Definition read_view (ro : ReadOptions) (d : DB) : list ColumnFamilyData :=
  match snapshot ro with
  | Some fams => fams
  | None => families d
  end.

(** [db->Get(options, col, key, &value)]: the status and what [value]
    holds afterwards (it starts empty). *)
Definition Get (inj : Status) (ro : ReadOptions) (h : ColumnFamilyHandle)
    (k : Slice) (d : DB) : Status * Slice :=
  if ok inj then
    match family_of (read_view ro d) d h with
    | Some c =>
        match rows_get k (cf_rows c) with
        | Some v => (kOk, v)
        | None => (kNotFound, [])
        end
    | None => (kInvalidArgument, [])
    end
  else (inj, []).

Fixpoint multi_get (get : nat -> ColumnFamilyHandle -> Slice -> Status * Slice)
    (i : nat) (cols : list ColumnFamilyHandle) (keys : list Slice)
    : list Status * list Slice :=
  match cols, keys with
  | h :: cols', k :: keys' =>
      let (s, v) := get i h k in
      let (ss, vs) := multi_get get (S i) cols' keys' in
      (s :: ss, v :: vs)
  | _, _ => ([], [])
  end.

(** [db->MultiGet(options, cols, keys, &vals)]: one status and one string
    per key, the string empty where the key is not found. *)
Definition MultiGet (inj : nat -> Status) (ro : ReadOptions)
    (cols : list ColumnFamilyHandle) (keys : list Slice) (d : DB)
    : list Status * list Slice :=
  multi_get (fun i h k => Get (inj i) ro h k d) 0 cols keys.

(** *** Iterators *)

Record Iterator := { it_all : Rows; it_cur : Rows }.

Definition NewIterator (ro : ReadOptions) (h : ColumnFamilyHandle) (d : DB)
    : Iterator :=
  match family_of (read_view ro d) d h with
  | Some c => {| it_all := cf_rows c; it_cur := [] |}
  | None => {| it_all := []; it_cur := [] |}
  end.

Definition Seek (target : Slice) (it : Iterator) : Iterator :=
  {| it_all := it_all it; it_cur := rows_seek target (it_all it) |}.

(** *** Column family management *)

Definition has_name (name : string) (c : ColumnFamilyData) : bool :=
  String.eqb (cf_name c) name.

(** [db->CreateColumnFamily(options, name, &col)]: the status, what [col]
    holds afterwards (it starts [nullptr]) and the database. *)
Definition CreateColumnFamily (inj : Status) (name : string) (d : DB)
    : Status * ColumnFamilyHandle * DB :=
  if ok inj then
    if existsb (has_name name) (families d) then (kInvalidArgument, 0%nat, d)
    else
      (kOk, next_handle d,
       {| families := families d ++ [{| cf_name := name; cf_rows := [] |}];
          handles := handles d ++ [(next_handle d, List.length (families d))];
          next_handle := S (next_handle d) |})
  else (inj, 0%nat, d).

(** [db->DestroyColumnFamilyHandle(handle)]: deletes the handle object;
    the column family and its rows stay. The handle the database owns for
    the default family is refused. *)
Definition DestroyColumnFamilyHandle (inj : Status) (h : ColumnFamilyHandle)
    (d : DB) : Status * DB :=
  if ok inj then
    if Nat.eqb h (DefaultColumnFamily d) then (kInvalidArgument, d)
    else
      match resolve d h with
      | Some _ =>
          (kOk,
           {| families := families d;
              handles := filter (fun p => negb (Nat.eqb (fst p) h)) (handles d);
              next_handle := next_handle d |})
      | None => (kInvalidArgument, d)
      end
  else (inj, d).

(** [LoadLatestOptions]: the descriptors of the families stored at the
    path, none when there is no database there. *)
Definition LoadLatestOptions (disk : list ColumnFamilyData) : list string :=
  map cf_name disk.

Fixpoint open_handles (first : nat) (f : nat) (names : list string)
    : list (ColumnFamilyHandle * nat) :=
  match names with
  | [] => []
  | _ :: rest => (first, f) :: open_handles (S first) (S f) rest
  end.

(** [TransactionDB::Open(options, txn_options, path, descriptors, &columns,
    &db)] with [create_if_missing]: the status, what [columns] and [db]
    hold afterwards. The descriptors must name the stored families, in the
    order they are stored; an empty path gets the default family. *)
Definition Open (inj : Status) (disk : list ColumnFamilyData)
    (descriptors : list string)
    : Status * list ColumnFamilyHandle * option DB :=
  if ok inj then
    let fams :=
      match disk with
      | [] => [{| cf_name := kDefaultColumnFamilyName; cf_rows := [] |}]
      | _ => disk
      end in
    if list_eq_dec string_dec (map cf_name fams) descriptors then
      let hs := open_handles 2 0 descriptors in
      (kOk, map fst hs,
       Some {| families := fams;
               handles := (1%nat, 0%nat) :: hs;
               next_handle := (2 + List.length descriptors)%nat |})
    else (kInvalidArgument, [], None)
  else (inj, [], None).

(** *** Transactions *)

Record Transaction := {
  txn_snapshot : option (list ColumnFamilyData);
  txn_batch : WriteBatch
}.

(** [db->BeginTransaction(write_options, txn_options, old_txn)]. *)
Definition BeginTransaction (wo : WriteOptions) (topts : TransactionOptions)
    (old : option Transaction) (d : DB) : option Transaction :=
  Some {| txn_snapshot := if set_snapshot topts then Some (families d) else None;
          txn_batch := [] |}.

Definition GetSnapshot (t : Transaction) : option (list ColumnFamilyData) :=
  txn_snapshot t.

Definition txn_record (inj : Status) (op : BatchOp) (t : Transaction) (d : DB)
    : Status * Transaction :=
  if ok inj then
    match family_of (families d) d (op_handle op) with
    | Some _ =>
        (kOk, {| txn_snapshot := txn_snapshot t;
                 txn_batch := txn_batch t ++ [op] |})
    | None => (kInvalidArgument, t)
    end
  else (inj, t).

(** [txn->Put], [txn->Delete], [txn->SingleDelete]: the operation joins the
    transaction's batch, or the call is refused (a lock conflict, a write
    past the snapshot) and the batch is unchanged. *)
Definition TxnPut inj h k v t d := txn_record inj (BPut h k v) t d.
Definition TxnDelete inj h k t d := txn_record inj (BDelete h k) t d.
Definition TxnSingleDelete inj h k t d := txn_record inj (BSingleDelete h k) t d.

(** The rows of family [f] with the batch's operations on it applied. *)
Fixpoint batch_rows (d : DB) (f : nat) (batch : WriteBatch) (rows : Rows)
    : Rows :=
  match batch with
  | [] => rows
  | op :: rest =>
      batch_rows d f rest
        (match resolve d (op_handle op) with
         | Some f' => if Nat.eqb f f' then op_rows op rows else rows
         | None => rows
         end)
  end.

Definition txn_view (ro : ReadOptions) (t : Transaction) (d : DB)
    (h : ColumnFamilyHandle) : option Rows :=
  match resolve d h with
  | Some f =>
      match nth_error (read_view ro d) f with
      | Some c => Some (batch_rows d f (txn_batch t) (cf_rows c))
      | None => None
      end
  | None => None
  end.

(** [txn->Get(options, col, key, &value)]: the transaction's own writes
    over the view [options] selects. *)
Definition TxnGet (inj : Status) (ro : ReadOptions) (h : ColumnFamilyHandle)
    (k : Slice) (t : Transaction) (d : DB) : Status * Slice :=
  if ok inj then
    match txn_view ro t d h with
    | Some rows =>
        match rows_get k rows with
        | Some v => (kOk, v)
        | None => (kNotFound, [])
        end
    | None => (kInvalidArgument, [])
    end
  else (inj, []).

Definition TxnMultiGet (inj : nat -> Status) (ro : ReadOptions)
    (cols : list ColumnFamilyHandle) (keys : list Slice)
    (t : Transaction) (d : DB) : list Status * list Slice :=
  multi_get (fun i h k => TxnGet (inj i) ro h k t d) 0 cols keys.

Definition TxnGetIterator (ro : ReadOptions) (h : ColumnFamilyHandle)
    (t : Transaction) (d : DB) : Iterator :=
  match txn_view ro t d h with
  | Some rows => {| it_all := rows; it_cur := [] |}
  | None => {| it_all := []; it_cur := [] |}
  end.

(** [txn->Commit()]: the batch goes to [Write], which writes it whole or
    not at all; the transaction is cleared whatever the status is. *)
Definition Commit (inj : Status) (t : Transaction) (d : DB)
    : Status * Transaction * DB :=
  let (s, d') := Write inj {| sync := false |} (txn_batch t) d in
  (s, {| txn_snapshot := None; txn_batch := [] |}, d').

End Rocks.

(** ** The host and the outcome of a run *)

(** The allocations the backend asks for. *)
Inductive alloc_site :=
| NewValue                (* [std::make_unique<rocks_value_t>()] *)
| NewArena                (* a fresh [stl_arena_t] *)
| Tape (bytes : nat).     (* growing the arena's tape to [bytes] *)

(** What the machine and the storage decide during one ABI call: the status
    the engine call with ordinal [k] comes back with (the loop index for a
    call made in a loop, [0] otherwise), whether an allocation succeeds,
    and the column families stored at [./tmp/rocksdb/]. *)
Record host_t := {
  io : nat -> Rocks.Status;
  heap : alloc_site -> bool;
  disk : list Rocks.ColumnFamilyData
}.

Inductive fault_t := NullDereference | DanglingPointer | OutOfBounds.

Inductive outcome (A : Type) :=
| Done (a : A)
| Fault (w : fault_t).

Arguments Done {A} a.
Arguments Fault {A} w.

Definition bind {A B} (m : outcome A) (f : A -> outcome B) : outcome B :=
  match m with
  | Done a => f a
  | Fault w => Fault w
  end.

Notation "x <- m ;; k" := (bind m (fun x => k))
  (at level 61, m at next level, right associativity).

(** [*p] for a pointer [p]. *)
Definition deref {A} (p : option A) : outcome A :=
  match p with
  | Some a => Done a
  | None => Fault NullDereference
  end.

(** [arr[i]] for an array the caller passed. *)
Definition at_index {A} (arr : list A) (i : nat) : outcome A :=
  match nth_error arr i with
  | Some a => Done a
  | None => Fault OutOfBounds
  end.

(** ** Handles and tasks *)

Definition rocks_col_ptr_t := Rocks.ColumnFamilyHandle.
Definition rocks_txn_ptr_t := option Rocks.Transaction.
Definition ukv_txn_t := option Rocks.Transaction.

Record rocks_db_wrapper_t := {
  columns : list rocks_col_ptr_t;
  db : option Rocks.DB
}.

(** [ukv_t]: the address of the wrapper, with the wrapper it points to. *)
Definition ukv_t := option rocks_db_wrapper_t.

(** Little-endian bytes of an integer: how the host lays out [ukv_key_t]. *)
Fixpoint le_bytes (n : nat) (x : Z) : list byte_t :=
  match n with
  | O => []
  | S n' => x mod 256 :: le_bytes n' (x / 256)
  end.

Fixpoint le_value (bs : list byte_t) : Z :=
  match bs with
  | [] => 0
  | b :: rest => b + 256 * le_value rest
  end.

(** [to_slice(ukv_key_t const&)]: the 8 bytes of the key as they lie in
    memory. *)
Definition to_slice (key : ukv_key_t) : Rocks.Slice := le_bytes 8 key.

(** [std::memcpy(&key, slice.data(), sizeof(ukv_key_t))]. *)
Definition key_of_slice (s : Rocks.Slice) : ukv_key_t := le_value (firstn 8 s).

(** [static_cast<ukv_val_len_t>(size)]. *)
Definition to_val_len (size : nat) : ukv_val_len_t := Z.of_nat size mod 2 ^ 32.

(** Modelled from the spec: the task records of helpers.hpp, which is not
    among the sources ("turns raw strided inputs into iterable task
    records (read/write/scan)"). A request is the array of its decoded
    tasks; [tasks[i]] is [at_index tasks i]. *)
Record read_task_t := { r_col : ukv_collection_t; r_key : ukv_key_t }.

(** Modelled from the spec: "per-task value pointer, offset, and length. A
    null value pointer encodes deletion." [w_begin] is the buffer the value
    pointer addresses. *)
Record write_task_t := {
  w_col : ukv_collection_t;
  w_key : ukv_key_t;
  w_begin : option (list byte_t);
  w_offset : nat;
  w_length : nat
}.

(** [task.is_deleted()]: the value pointer is null. *)
Definition is_deleted (task : write_task_t) : bool :=
  match w_begin task with
  | None => true
  | Some _ => false
  end.

(** [task.view()]: [length] bytes of the buffer from [offset] on. *)
Definition view (task : write_task_t) : Rocks.Slice :=
  match w_begin task with
  | Some buf => firstn (w_length task) (skipn (w_offset task) buf)
  | None => []
  end.

(** Modelled from the spec: "per-task (collection, min_key, max_count)". *)
Record scan_task_t := {
  s_col : ukv_collection_t;
  s_min_key : ukv_key_t;
  s_length : nat
}.

(** Modelled from the spec: the arena of helpers.hpp ("created on first use
    (caller passes null), grown by the core"). Only the size of its tape is
    kept; what the tape holds is what the out-pointers show. *)
Record stl_arena_t := { output_tape : nat }.

Definition ukv_arena_t := option stl_arena_t.

Definition out_of_memory_k : string := "Failed to allocate memory!".

(** Modelled from the spec: [cast_arena] of helpers.hpp. The arena behind
    [*c_arena] is made when the caller passed NULL; the result is what
    [*c_arena] holds, NULL with the error set when it cannot be made. *)
Definition cast_arena (h : host_t) (c_arena : ukv_arena_t)
    (c_error : ukv_error_t) : ukv_arena_t * ukv_error_t :=
  match c_arena with
  | Some a => (c_arena, c_error)
  | None =>
      if heap h NewArena then (Some {| output_tape := 0 |}, c_error)
      else (None, Some out_of_memory_k)
  end.

(** Modelled from the spec: [prepare_memory] of helpers.hpp. The tape is
    grown to [bytes], or the error is set ("arena or internal allocation
    failed"). *)
Definition prepare_memory (h : host_t) (arena : stl_arena_t) (bytes : nat)
    (c_error : ukv_error_t) : stl_arena_t * ukv_error_t :=
  if heap h (Tape bytes) then ({| output_tape := bytes |}, c_error)
  else (arena, Some out_of_memory_k).

Definition non_null {A} (p : option A) : bool :=
  match p with
  | Some _ => true
  | None => false
  end.

(** The test [if ( *c_error )]. *)
Definition is_set (c_error : ukv_error_t) : bool := non_null c_error.

(** ** The backend *)

(** [task.col ? reinterpret_cast<rocks_col_ptr_t>(task.col)
              : db_wrapper->db->DefaultColumnFamily()]. *)
Definition col_or_default (d : Rocks.DB) (col : ukv_collection_t)
    : rocks_col_ptr_t :=
  if Nat.eqb col 0 then Rocks.DefaultColumnFamily d else col.

Definition make_value (h : host_t) (c_error : ukv_error_t)
    : option Rocks.Slice * ukv_error_t :=
  if heap h NewValue then (Some [], c_error)
  else (None, Some "Fail to allocate value"%string).

Definition export_error (status : Rocks.Status) (c_error : ukv_error_t)
    : bool * ukv_error_t :=
  if Rocks.ok status then (false, c_error)
  else if Rocks.IsCorruption status then
    (true, Some "Failure: DB Corrpution"%string)
  else if Rocks.IsIOError status then
    (true, Some "Failure: IO  Error"%string)
  else if Rocks.IsInvalidArgument status then
    (true, Some "Failure: Invalid Argument"%string)
  else (true, Some "Failure"%string).

Definition with_db (w : rocks_db_wrapper_t) (d : Rocks.DB)
    : rocks_db_wrapper_t :=
  {| columns := columns w; db := Some d |}.

(** [ukv_open]. The wrapper is stored in [*c_db] whatever [Open] says. *)
Definition ukv_open (h : host_t) (c_config : option string) (c_db : ukv_t)
    (c_error : ukv_error_t) : ukv_t * ukv_error_t :=
  let column_descriptors := Rocks.LoadLatestOptions (disk h) in
  let column_descriptors :=
    match column_descriptors with
    | [] => [Rocks.kDefaultColumnFamilyName]
    | _ => column_descriptors
    end in
  let '(status, cols, d) := Rocks.Open (io h 0) (disk h) column_descriptors in
  let db_wrapper := {| columns := cols; db := d |} in
  let c_error :=
    if negb (Rocks.ok status) then Some "Open Error"%string else c_error in
  (Some db_wrapper, c_error).

(** The state a write leaves: the wrapper behind [c_db], the transaction
    behind [c_txn], and [*c_error]. *)
Definition write_result : Type := ukv_t * rocks_txn_ptr_t * ukv_error_t.

Definition write_one (h : host_t) (c_db : ukv_t) (txn : rocks_txn_ptr_t)
    (tasks : list write_task_t) (n : nat) (options : Rocks.WriteOptions)
    (c_error : ukv_error_t) : outcome write_result :=
  task <- at_index tasks 0 ;;
  db_wrapper <- deref c_db ;;
  d <- deref (db db_wrapper) ;;
  let key := to_slice (w_key task) in
  let col := col_or_default d (w_col task) in
  match txn with
  | Some t =>
      let (status, t') :=
        if is_deleted task then Rocks.TxnSingleDelete (io h 0) col key t d
        else Rocks.TxnPut (io h 0) col key (view task) t d in
      Done (c_db, Some t', snd (export_error status c_error))
  | None =>
      let (status, d') :=
        if is_deleted task then Rocks.SingleDelete (io h 0) options col key d
        else Rocks.Put (io h 0) options col key (view task) d in
      Done (Some (with_db db_wrapper d'), None,
            snd (export_error status c_error))
  end.

(** The transactional loop of [write_many], from index [i] for [count]
    more tasks; the statuses of the calls are dropped as in the source.
    The handle table lives in the database of the model, so an iteration
    reads the wrapper also for a task that names its collection. *)
Fixpoint write_many_txn (h : host_t) (c_db : ukv_t)
    (tasks : list write_task_t) (i count : nat) (t : Rocks.Transaction)
    : outcome Rocks.Transaction :=
  match count with
  | O => Done t
  | S count' =>
      task <- at_index tasks i ;;
      db_wrapper <- deref c_db ;;
      d <- deref (db db_wrapper) ;;
      let col := col_or_default d (w_col task) in
      let key := to_slice (w_key task) in
      let t' :=
        snd (if is_deleted task then Rocks.TxnDelete (io h i) col key t d
             else Rocks.TxnPut (io h i) col key (view task) t d) in
      write_many_txn h c_db tasks (S i) count' t'
  end.

(** The loop of [write_many] that fills the [WriteBatch]. *)
Fixpoint write_many_batch (d : Rocks.DB) (tasks : list write_task_t)
    (i count : nat) (batch : Rocks.WriteBatch) : outcome Rocks.WriteBatch :=
  match count with
  | O => Done batch
  | S count' =>
      task <- at_index tasks i ;;
      let col := col_or_default d (w_col task) in
      let key := to_slice (w_key task) in
      let op :=
        if is_deleted task then Rocks.BDelete col key
        else Rocks.BPut col key (view task) in
      write_many_batch d tasks (S i) count' (batch ++ [op])
  end.

Definition write_many (h : host_t) (c_db : ukv_t) (txn : rocks_txn_ptr_t)
    (tasks : list write_task_t) (n : nat) (options : Rocks.WriteOptions)
    (c_error : ukv_error_t) : outcome write_result :=
  match txn with
  | Some t =>
      t' <- write_many_txn h c_db tasks 0 n t ;;
      Done (c_db, Some t', c_error)
  | None =>
      db_wrapper <- deref c_db ;;
      d <- deref (db db_wrapper) ;;
      batch <- write_many_batch d tasks 0 n [] ;;
      let (status, d') := Rocks.Write (io h 0) options batch d in
      Done (Some (with_db db_wrapper d'), None,
            snd (export_error status c_error))
  end.

(** What the two out-pointers of a read show: the [n] lengths behind
    [*c_found_lengths] and the value bytes behind [*c_found_values];
    [None] is a pointer the call did not set. *)
Record read_out := {
  c_found_lengths : option (list ukv_val_len_t);
  c_found_values : option (list byte_t)
}.

Definition read_result : Type := read_out * stl_arena_t * ukv_error_t.

(** Step 3 of [read_many]: the lengths and the bytes put on the tape. *)
Fixpoint fetch (vals : list Rocks.Slice) : list ukv_val_len_t * list byte_t :=
  match vals with
  | [] => ([], [])
  | v :: rest =>
      let (lens, bytes) := fetch rest in
      let bytes_in_value := List.length v in
      if negb (Nat.eqb bytes_in_value 0)
      then (to_val_len bytes_in_value :: lens, (v ++ bytes)%list)
      else (ukv_val_len_missing_k :: lens, bytes)
  end.

Fixpoint read_many_tasks (d : Rocks.DB) (tasks : list read_task_t)
    (i count : nat) : outcome (list rocks_col_ptr_t * list Rocks.Slice) :=
  match count with
  | O => Done ([], [])
  | S count' =>
      task <- at_index tasks i ;;
      rest <- read_many_tasks d tasks (S i) count' ;;
      Done (col_or_default d (r_col task) :: fst rest,
            to_slice (r_key task) :: snd rest)
  end.

Definition total_size (vals : list Rocks.Slice) : nat :=
  fold_right (fun v acc => (List.length v + acc)%nat) 0%nat vals.


(** [arr[i] = x] for an array of uninitialised slots. *)
Fixpoint store {A} (arr : list (option A)) (i : nat) (x : A)
    : outcome (list (option A)) :=
  match arr, i with
  | [], _ => Fault OutOfBounds
  | _ :: rest, O => Done (Some x :: rest)
  | a :: rest, S i' => rest' <- store rest i' x ;; Done (a :: rest')
  end.

(** [scanned_keys] and [scanned_lens]: the slots the tape has for them. *)
Definition scan_slots : Type :=
  list (option ukv_key_t) * list (option ukv_val_len_t).

(** The inner loop of [ukv_scan]:
    [for (; it->Valid() && i != task.length; i++, it->Next())], on the
    rows the iterator has left. It counts with the index [i] of the task
    loop. *)
Fixpoint scan_fill (length : nat) (rows : Rocks.Rows) (i : nat)
    (slots : scan_slots) : outcome (nat * scan_slots) :=
  match rows with
  | [] => Done (i, slots)
  | (k, v) :: rest =>
      if Nat.eqb i length then Done (i, slots)
      else
        keys <- store (fst slots) i (key_of_slice k) ;;
        lens <- store (snd slots) i (to_val_len (List.length v)) ;;
        scan_fill length rest (S i) (keys, lens)
  end.

(** One turn of the task loop of [ukv_scan], at the task index [i]: the
    index the inner loop leaves and the slots. *)
Definition scan_task (c_db : ukv_t) (txn : rocks_txn_ptr_t)
    (tasks : list scan_task_t) (options : Rocks.ReadOptions) (i : nat)
    (slots : scan_slots) : outcome (nat * scan_slots) :=
  task <- at_index tasks i ;;
  db_wrapper <- deref c_db ;;
  d <- deref (db db_wrapper) ;;
  let col := col_or_default d (s_col task) in
  let it :=
    match txn with
    | Some t => Rocks.TxnGetIterator options col t d
    | None => Rocks.NewIterator options col d
    end in
  let it := Rocks.Seek (to_slice (s_min_key task)) it in
  scan_fill (s_length task) (Rocks.it_cur it) i slots.

(** The task loop of [ukv_scan]: [for (i = 0; i != n; ++i)]. Every turn
    reads [tasks[i]] and moves [i] up, so the loop takes at most as many
    turns as the caller's arrays have tasks; [fuel] starts there, and more
    of it changes nothing ([scan_tasks_fuel]). *)
Fixpoint scan_tasks (fuel : nat) (c_db : ukv_t) (txn : rocks_txn_ptr_t)
    (tasks : list scan_task_t) (n : nat) (options : Rocks.ReadOptions)
    (i : nat) (slots : scan_slots) : outcome scan_slots :=
  if Nat.eqb i n then Done slots
  else
    match fuel with
    | O => Fault OutOfBounds
    | S fuel' =>
        r <- scan_task c_db txn tasks options i slots ;;
        scan_tasks fuel' c_db txn tasks n options (S (fst r)) (snd r)
    end.

(** What the two out-pointers of a scan show; a slot the call did not
    store into is [None]. *)
Record scan_out := {
  c_found_keys : option (list (option ukv_key_t));
  c_found_lens : option (list (option ukv_val_len_t))
}.

(** [handle->GetName()] through the wrapper's database. *)
Definition handle_name (d : option Rocks.DB) (handle : rocks_col_ptr_t)
    : outcome string :=
  if Nat.eqb handle 0 then Fault NullDereference
  else
    match d with
    | Some d' =>
        match Rocks.GetName d' handle with
        | Some name => Done name
        | None => Fault DanglingPointer
        end
    | None => Fault DanglingPointer
    end.

(** The loop of [ukv_collection_open] over [db_wrapper->columns]. *)
Fixpoint find_column (d : option Rocks.DB) (name : string)
    (cols : list rocks_col_ptr_t) : outcome (option rocks_col_ptr_t) :=
  match cols with
  | [] => Done None
  | handle :: rest =>
      if Nat.eqb handle 0 then find_column d name rest
      else
        its_name <- handle_name d handle ;;
        if String.eqb its_name name then Done (Some handle)
        else find_column d name rest
  end.

(** [ukv_collection_open]: the wrapper, [*c_col] and [*c_error]. *)
Definition ukv_collection_open (h : host_t) (c_db : ukv_t)
    (c_col_name : ukv_str_view_t) (c_col : ukv_collection_t)
    (c_error : ukv_error_t)
    : outcome (rocks_db_wrapper_t * ukv_collection_t * ukv_error_t) :=
  db_wrapper <- deref c_db ;;
  match c_col_name with
  | None =>
      d <- deref (db db_wrapper) ;;
      Done (db_wrapper, Rocks.DefaultColumnFamily d, c_error)
  | Some name =>
      found <- find_column (db db_wrapper) name (columns db_wrapper) ;;
      match found with
      | Some handle => Done (db_wrapper, handle, c_error)
      | None =>
          d <- deref (db db_wrapper) ;;
          let '(status, col, d') :=
            Rocks.CreateColumnFamily (io h 0) name d in
          let (failed, c_error') := export_error status c_error in
          if failed then
            Done ({| columns := columns db_wrapper ++ [col]; db := Some d' |},
                  col, c_error')
          else Done (with_db db_wrapper d', c_col, c_error')
      end
  end.

(** The loop of [ukv_collection_remove] over [db_wrapper->columns], at the
    handle with index [i]. [c_col_name == handle->GetName()] reads the C
    string and the handle. *)
Fixpoint remove_columns (h : host_t) (c_col_name : ukv_str_view_t) (i : nat)
    (cols : list rocks_col_ptr_t) (d : option Rocks.DB)
    (c_error : ukv_error_t) : outcome (option Rocks.DB * ukv_error_t) :=
  match cols with
  | [] => Done (d, c_error)
  | handle :: rest =>
      name <- deref c_col_name ;;
      its_name <- handle_name d handle ;;
      if String.eqb name its_name then
        d0 <- deref d ;;
        let (status, d') :=
          Rocks.DestroyColumnFamilyHandle (io h i) handle d0 in
        let (failed, c_error') := export_error status c_error in
        if failed then Done (Some d', c_error')
        else remove_columns h c_col_name (S i) rest (Some d') c_error'
      else remove_columns h c_col_name (S i) rest d c_error
  end.

(** [ukv_collection_remove]: the wrapper and [*c_error]. The vector
    [columns] is not touched. *)
Definition ukv_collection_remove (h : host_t) (c_db : ukv_t)
    (c_col_name : ukv_str_view_t) (c_error : ukv_error_t)
    : outcome (rocks_db_wrapper_t * ukv_error_t) :=
  db_wrapper <- deref c_db ;;
  r <- remove_columns h c_col_name 0 (columns db_wrapper) (db db_wrapper)
         c_error ;;
  Done ({| columns := columns db_wrapper; db := fst r |}, snd r).

(** [ukv_control]: [*c_response] and [*c_error]. *)
Definition ukv_control (c_db : ukv_t) (request : ukv_str_view_t)
    (c_response : ukv_str_view_t) (c_error : ukv_error_t)
    : ukv_str_view_t * ukv_error_t :=
  (None, Some "Controls aren't supported in this implementation!"%string).

(** [ukv_txn_begin]: [*c_txn] and [*c_error]. *)
Definition ukv_txn_begin (c_db : ukv_t) (sequence_number : nat)
    (c_options : ukv_options_t) (c_txn : ukv_txn_t) (c_error : ukv_error_t)
    : outcome (ukv_txn_t * ukv_error_t) :=
  db_wrapper <- deref c_db ;;
  d <- deref (db db_wrapper) ;;
  let options := {| Rocks.set_snapshot := true |} in
  let txn :=
    Rocks.BeginTransaction {| Rocks.sync := false |} options c_txn d in
  match txn with
  | None => Done (c_txn, Some "Couldn't start a transaction!"%string)
  | Some t => Done (Some t, c_error)
  end.

(** [ukv_txn_commit], on the database [d] the transaction belongs to: the
    transaction, the database and [*c_error]. *)
Definition ukv_txn_commit (h : host_t) (d : Rocks.DB) (c_txn : ukv_txn_t)
    (c_options : ukv_options_t) (c_error : ukv_error_t)
    : outcome (Rocks.Transaction * Rocks.DB * ukv_error_t) :=
  txn <- deref c_txn ;;
  let '(status, txn', d') := Rocks.Commit (io h 0) txn d in
  Done (txn', d', snd (export_error status c_error)).

Section Backend.

(** The option bits and [ukv_size_t] come from the ukv.h of this revision,
    which is not among the sources: they are parameters. *)
Variable ukv_option_write_flush_k : ukv_options_t.
Variable ukv_option_read_transparent_k : ukv_options_t.
Variable sizeof_ukv_size_t : nat.

Definition sizeof_ukv_val_len_t : nat := 4.
Definition sizeof_ukv_key_t : nat := 8.

(** [ukv_write]. No callee of the model throws, so the [catch] is not
    reached. *)
Definition ukv_write (h : host_t) (c_db : ukv_t) (c_txn : ukv_txn_t)
    (c_tasks_count : nat) (tasks : list write_task_t)
    (c_options : ukv_options_t) (c_error : ukv_error_t)
    : outcome write_result :=
  let options :=
    {| Rocks.sync :=
         negb (Z.land c_options ukv_option_write_flush_k =? 0) |} in
  if Nat.eqb c_tasks_count 1
  then write_one h c_db c_txn tasks c_tasks_count options c_error
  else write_many h c_db c_txn tasks c_tasks_count options c_error.

Definition read_one (h : host_t) (c_db : ukv_t) (txn : rocks_txn_ptr_t)
    (tasks : list read_task_t) (n : nat) (options : Rocks.ReadOptions)
    (out : read_out) (arena : stl_arena_t) (c_error : ukv_error_t)
    : outcome read_result :=
  task <- at_index tasks 0 ;;
  db_wrapper <- deref c_db ;;
  d <- deref (db db_wrapper) ;;
  let col := col_or_default d (r_col task) in
  let (value_uptr, c_error) := make_value h c_error in
  _ <- deref value_uptr ;;
  let key := to_slice (r_key task) in
  let (status, value) :=
    match txn with
    | Some t => Rocks.TxnGet (io h 0) options col key t d
    | None => Rocks.Get (io h 0) options col key d
    end in
  let (failed, c_error) :=
    if negb (Rocks.IsNotFound status) then export_error status c_error
    else (false, c_error) in
  if failed then Done (out, arena, c_error)
  else
    let bytes_in_value := List.length value in
    let exported_len :=
      if Rocks.IsNotFound status then ukv_val_len_missing_k
      else Z.of_nat bytes_in_value in
    let (arena, c_error) :=
      prepare_memory h arena (sizeof_ukv_size_t + bytes_in_value) c_error in
    if is_set c_error then Done (out, arena, c_error)
    else
      Done ({| c_found_lengths := Some [exported_len mod 2 ^ 32];
               c_found_values := Some value |}, arena, c_error).

Definition read_many (h : host_t) (c_db : ukv_t) (txn : rocks_txn_ptr_t)
    (tasks : list read_task_t) (n : nat) (options : Rocks.ReadOptions)
    (out : read_out) (arena : stl_arena_t) (c_error : ukv_error_t)
    : outcome read_result :=
  db_wrapper <- deref c_db ;;
  d <- deref (db db_wrapper) ;;
  cols_keys <- read_many_tasks d tasks 0 n ;;
  let (cols, keys) := cols_keys in
  let (statuses, vals) :=
    match txn with
    | Some t => Rocks.TxnMultiGet (io h) options cols keys t d
    | None => Rocks.MultiGet (io h) options cols keys d
    end in
  let total_bytes := (sizeof_ukv_val_len_t * n + total_size vals)%nat in
  let (arena, c_error) := prepare_memory h arena total_bytes c_error in
  if is_set c_error then Done (out, arena, c_error)
  else
    let (lens, bytes) := fetch vals in
    Done ({| c_found_lengths := Some lens; c_found_values := Some bytes |},
          arena, c_error).

Definition default_read_options : Rocks.ReadOptions :=
  {| Rocks.snapshot := None; Rocks.fill_cache := true |}.

(** [ukv_read]: what the out-pointers show, [*c_arena] and [*c_error]. *)
Definition ukv_read (h : host_t) (c_db : ukv_t) (c_txn : ukv_txn_t)
    (c_tasks_count : nat) (tasks : list read_task_t)
    (c_options : ukv_options_t) (out : read_out) (c_arena : ukv_arena_t)
    (c_error : ukv_error_t)
    : outcome (read_out * ukv_arena_t * ukv_error_t) :=
  if non_null c_txn && (Z.land c_options ukv_option_read_transparent_k =? 0)
  then Done (out, c_arena,
             Some "RocksDB only supports transparent reads!"%string)
  else
    let (c_arena, c_error) := cast_arena h c_arena c_error in
    arena <- deref c_arena ;;
    let options :=
      match c_txn with
      | Some t => {| Rocks.snapshot := Rocks.GetSnapshot t;
                     Rocks.fill_cache := true |}
      | None => default_read_options
      end in
    r <- (if Nat.eqb c_tasks_count 1
          then read_one h c_db c_txn tasks c_tasks_count options out arena
                 c_error
          else read_many h c_db c_txn tasks c_tasks_count options out arena
                 c_error) ;;
    let '(out', arena', c_error') := r in
    Done (out', Some arena', c_error').

(** [ukv_scan]: what the out-pointers show, [*c_arena] and [*c_error]. No
    callee of the model throws, so the iterator is always created. *)
Definition ukv_scan (h : host_t) (c_db : ukv_t) (c_txn : ukv_txn_t)
    (c_min_tasks_count : nat) (tasks : list scan_task_t)
    (c_options : ukv_options_t) (out : scan_out) (c_arena : ukv_arena_t)
    (c_error : ukv_error_t)
    : outcome (scan_out * ukv_arena_t * ukv_error_t) :=
  if non_null c_txn && (Z.land c_options ukv_option_read_transparent_k =? 0)
  then Done (out, c_arena,
             Some "RocksDB only supports transparent reads!"%string)
  else
    let (c_arena, c_error) := cast_arena h c_arena c_error in
    arena <- deref c_arena ;;
    if is_set c_error then Done (out, c_arena, c_error)
    else
      let options := {| Rocks.snapshot := None; Rocks.fill_cache := false |} in
      let keys_bytes := (sizeof_ukv_key_t * c_min_tasks_count)%nat in
      let val_len_bytes := (sizeof_ukv_val_len_t * c_min_tasks_count)%nat in
      let (arena, c_error) :=
        prepare_memory h arena (keys_bytes + val_len_bytes) c_error in
      if is_set c_error then Done (out, Some arena, c_error)
      else
        slots <- scan_tasks (List.length tasks) c_db c_txn tasks
                   c_min_tasks_count options 0
                   (repeat None c_min_tasks_count,
                    repeat None c_min_tasks_count) ;;
        Done ({| c_found_keys := Some (fst slots);
                 c_found_lens := Some (snd slots) |}, Some arena, c_error).

End Backend.

(** ** The rest of ukv_graph.hpp *)

Module Neighborhood.

(** [operator<(ukv_key_t, neighborship_t)], [operator<(neighborship_t,
    ukv_key_t)] and the two [operator==] beside them: a vertex id against
    the neighbour of a neighbourship. *)
Definition key_lt_ship (a_vertex_id : ukv_key_t) (b : Graph.neighborship_t)
    : bool :=
  a_vertex_id <? Graph.neighbor_id b.

Definition ship_lt_key (a : Graph.neighborship_t) (b_vertex_id : ukv_key_t)
    : bool :=
  Graph.neighbor_id a <? b_vertex_id.

Definition key_eq_ship (a_vertex_id : ukv_key_t) (b : Graph.neighborship_t)
    : bool :=
  a_vertex_id =? Graph.neighbor_id b.

Definition ship_eq_key (a : Graph.neighborship_t) (b_vertex_id : ukv_key_t)
    : bool :=
  Graph.neighbor_id a =? b_vertex_id.

(** [ukv_vertex_role_t] is declared in ukv_graph.h, which is not among the
    sources; these are the four enumerators the switches of ukv_graph.hpp
    list, after which they are [__builtin_unreachable()]. *)
Inductive ukv_vertex_role_t :=
| ukv_vertex_source_k
| ukv_vertex_target_k
| ukv_vertex_role_any_k
| ukv_vertex_role_unknown_k.

Definition invert (role : ukv_vertex_role_t) : ukv_vertex_role_t :=
  match role with
  | ukv_vertex_source_k => ukv_vertex_target_k
  | ukv_vertex_target_k => ukv_vertex_source_k
  | ukv_vertex_role_any_k => ukv_vertex_role_unknown_k
  | ukv_vertex_role_unknown_k => ukv_vertex_role_any_k
  end.

(** A [range_gt<neighborship_t const*>]: the default-constructed range, or
    the neighbourships from [first] up to [last], counted from [ships],
    the address behind the two degrees. [range_gt] is declared in ukv.hpp,
    which is not among the sources: its [size()] is taken to be the distance
    of its two pointers, and the default-constructed range to be empty. *)
Inductive ships_range_t :=
| no_ships
| ships (first last : nat).

(** [range.size()]. *)
Definition range_size (r : ships_range_t) : nat :=
  match r with
  | no_ships => 0
  | ships first last => last - first
  end.

Section Degrees.

(** [sizeof(ukv_vertex_degree_t)]; the type is declared in ukv_graph.h. *)
Variable sizeof_ukv_vertex_degree_t : nat.

(** [degrees[i]]: the [i]-th degree at the head of the value, as the host
    lays integers out. *)
Definition degree (bytes : list byte_t) (i : nat) : nat :=
  Z.to_nat
    (le_value
       (firstn sizeof_ukv_vertex_degree_t
          (skipn (i * sizeof_ukv_vertex_degree_t) bytes))).

Definition neighbors (bytes : list byte_t) (role : ukv_vertex_role_t)
    : ships_range_t :=
  if (List.length bytes <? 2 * sizeof_ukv_vertex_degree_t)%nat then no_ships
  else
    match role with
    | ukv_vertex_source_k => ships 0 (degree bytes 0)
    | ukv_vertex_target_k =>
        ships (degree bytes 0) (degree bytes 0 + degree bytes 1)
    | ukv_vertex_role_any_k => ships 0 (degree bytes 0 + degree bytes 1)
    | ukv_vertex_role_unknown_k => no_ships
    end.

Record neighborhood_t := {
  center : ukv_key_t;
  targets : ships_range_t;
  sources : ships_range_t
}.

(** [neighborhood_t(center_vertex, bytes)]: [center] keeps its default
    member initialiser, the constructor does not assign it. *)
Definition make_neighborhood (center_vertex : ukv_key_t)
    (bytes : list byte_t) : neighborhood_t :=
  {| center := 0;
     targets := neighbors bytes ukv_vertex_source_k;
     sources := neighbors bytes ukv_vertex_target_k |}.

(** [neighborhood_t::size()]. *)
Definition size (n : neighborhood_t) : nat :=
  range_size (targets n) + range_size (sources n).

End Degrees.

End Neighborhood.

(** ** The bookkeeping of the transaction stress test *)

Module Stress.

Inductive operation_code_t := insert_k | remove_k | select_k.

(** The value of an enumerator in its [std::uint8_t]. *)
Definition code (t : operation_code_t) : Z :=
  match t with
  | insert_k => 0
  | remove_k => 1
  | select_k => 2
  end.

(** [operation_gt]: a logged batch. *)
Record operation_gt := {
  type : operation_code_t;
  count : nat;
  keys : list ukv_key_t;
  values : list Z
}.

(** The comparator [serializable_transactions] sorts the log with: by
    sequence number, then by operation code. *)
Definition replay_before (left right : Z * operation_gt) : bool :=
  (fst left <? fst right)
  || ((fst left =? fst right)
      && (code (type (snd left)) <? code (type (snd right)))).

(** [operation_t]: one operation of a transaction, watched or not. *)
Record operation_t := {
  op_type : operation_code_t;
  op_key : ukv_key_t;
  op_watch : bool
}.

(** [std::unordered_map<ukv_key_t, bool>]: the keys updated so far, each
    with whether it is present. *)
Definition updated_keys_t := ukv_key_t -> option bool.

(** [updated_keys[key] = present]. *)
Definition assign (updated_keys : updated_keys_t) (key : ukv_key_t)
    (present : bool) : updated_keys_t :=
  fun k => if k =? key then Some present else updated_keys k.

Definition is_insert (t : operation_code_t) : bool :=
  match t with insert_k => true | _ => false end.

Definition is_remove (t : operation_code_t) : bool :=
  match t with remove_k => true | _ => false end.

(** The loop of [add_updated_keys], from [idx] for [n] more operations. *)
Fixpoint add_updated_keys_from (operations : list operation_t) (idx n : nat)
    (updated_keys : updated_keys_t) : outcome updated_keys_t :=
  match n with
  | O => Done updated_keys
  | S n' =>
      op <- at_index operations idx ;;
      add_updated_keys_from operations (S idx) n'
        (if is_remove (op_type op) || is_insert (op_type op)
         then assign updated_keys (op_key op) (is_insert (op_type op))
         else updated_keys)
  end.

Definition add_updated_keys (operations : list operation_t)
    (operations_count : nat) (updated_keys : updated_keys_t)
    : outcome updated_keys_t :=
  add_updated_keys_from operations 0 operations_count updated_keys.

(** The loop of [will_succeed]. *)
Fixpoint will_succeed_from (operations : list operation_t) (idx n : nat)
    (updated_keys : updated_keys_t) : outcome bool :=
  match n with
  | O => Done true
  | S n' =>
      op <- at_index operations idx ;;
      if op_watch op && non_null (updated_keys (op_key op)) then Done false
      else will_succeed_from operations (S idx) n' updated_keys
  end.

Definition will_succeed (operations : list operation_t)
    (operations_count : nat) (updated_keys : updated_keys_t) : outcome bool :=
  will_succeed_from operations 0 operations_count updated_keys.

(** Whether one of the first [n] operations writes [key]. *)
Definition writes_key (operations : list operation_t) (n : nat)
    (key : ukv_key_t) : bool :=
  existsb
    (fun op => (is_remove (op_type op) || is_insert (op_type op))
               && (op_key op =? key))
    (firstn n operations).

End Stress.

(** ** Requests used below *)

(** A host whose storage and allocator serve every call, with nothing
    stored at the path, and one whose storage answers with an IO error. *)
Definition healthy_host : host_t :=
  {| io := fun _ => Rocks.kOk; heap := fun _ => true; disk := [] |}.

Definition broken_disk_host : host_t :=
  {| io := fun _ => Rocks.kIOError; heap := fun _ => true; disk := [] |}.

(** Values of the option bits and of [sizeof(ukv_size_t)] for the runs
    below. *)
Definition write_flush_bit : ukv_options_t := 16.
Definition read_transparent_bit : ukv_options_t := 4.
Definition size_t_bytes : nat := 8.

(** The database [ukv_open] gives on the healthy host. *)
Definition fresh_db : ukv_t := fst (ukv_open healthy_host None None None).

(** The same database and its wrapper, written out. *)
Definition fresh_engine : Rocks.DB :=
  {| Rocks.families :=
       [{| Rocks.cf_name := Rocks.kDefaultColumnFamilyName;
           Rocks.cf_rows := [] |}];
     Rocks.handles := [(1%nat, 0%nat); (2%nat, 0%nat)];
     Rocks.next_handle := 3 |}.

Definition fresh_wrapper : rocks_db_wrapper_t :=
  {| columns := [2%nat]; db := Some fresh_engine |}.

Definition no_read_out : read_out :=
  {| c_found_lengths := None; c_found_values := None |}.

Definition no_scan_out : scan_out :=
  {| c_found_keys := None; c_found_lens := None |}.

(** The task that writes [value] under [key] in [col]. *)
Definition put_task (col : ukv_collection_t) (key : ukv_key_t)
    (value : list byte_t) : write_task_t :=
  {| w_col := col; w_key := key; w_begin := Some value;
     w_offset := 0%nat; w_length := List.length value |}.

(** The task that deletes [key] in [col]: its value pointer is null. *)
Definition delete_task (col : ukv_collection_t) (key : ukv_key_t)
    : write_task_t :=
  {| w_col := col; w_key := key; w_begin := None;
     w_offset := 0%nat; w_length := 0%nat |}.

Definition get_task (col : ukv_collection_t) (key : ukv_key_t)
    : read_task_t :=
  {| r_col := col; r_key := key |}.

(** The database after one [ukv_write] of [tasks] outside a transaction. *)
Definition written (c_db : ukv_t) (tasks : list write_task_t) : ukv_t :=
  match ukv_write write_flush_bit healthy_host c_db None (List.length tasks)
          tasks 0 None with
  | Done (c_db', _, _) => c_db'
  | Fault _ => None
  end.

(** "purpose of life", 15 bytes. *)
Definition purpose_of_life : list byte_t :=
  [112; 117; 114; 112; 111; 115; 101; 32; 111; 102; 32; 108; 105; 102; 101].

(** The default collection holding key 42. *)
Definition db_with_42 : ukv_t :=
  written fresh_db [put_task ukv_default_collection_k 42 purpose_of_life].

(** The same database and its wrapper, written out. *)
Definition engine_with_42 : Rocks.DB :=
  Rocks.with_families fresh_engine
    [{| Rocks.cf_name := Rocks.kDefaultColumnFamilyName;
        Rocks.cf_rows := [(to_slice 42, purpose_of_life)] |}].

Definition wrapper_with_42 : rocks_db_wrapper_t :=
  with_db fresh_wrapper engine_with_42.

(** The default collection holding key 7 with an empty value. *)
Definition db_with_empty_7 : ukv_t :=
  written fresh_db [put_task ukv_default_collection_k 7 []].

(** The default collection holding the keys 5, 10, 12, 20, 25 and 30, with
    values of zero to three bytes. *)
Definition db_with_six_keys : ukv_t :=
  written fresh_db
    [put_task ukv_default_collection_k 5 [1];
     put_task ukv_default_collection_k 10 [1; 1];
     put_task ukv_default_collection_k 12 [];
     put_task ukv_default_collection_k 20 [1; 1; 1];
     put_task ukv_default_collection_k 25 [1];
     put_task ukv_default_collection_k 30 [1; 1]].

(** ** Notions the statements use *)

(** What the tasks of a batch ask of the column families, one after the
    other: the state a batch leaves when every entry is applied. *)
Definition task_rows (task : write_task_t) : Rocks.Rows -> Rocks.Rows :=
  if is_deleted task then Rocks.rows_delete (to_slice (w_key task))
  else Rocks.rows_put (to_slice (w_key task)) (view task).

Fixpoint apply_tasks (d : Rocks.DB) (fams : list Rocks.ColumnFamilyData)
    (tasks : list write_task_t) : option (list Rocks.ColumnFamilyData) :=
  match tasks with
  | [] => Some fams
  | task :: rest =>
      match Rocks.resolve d (col_or_default d (w_col task)) with
      | Some f =>
          match nth_error fams f with
          | Some _ =>
              apply_tasks d (Rocks.update_family f (task_rows task) fams) rest
          | None => None
          end
      | None => None
      end
  end.

(** Rows in strict comparator order, the order the engine keeps them in. *)
Fixpoint rows_sorted (rows : Rocks.Rows) : Prop :=
  match rows with
  | (k1, _) :: rest =>
      match rest with
      | (k2, _) :: _ => Rocks.Compare k1 k2 = Lt
      | [] => True
      end /\ rows_sorted rest
  | [] => True
  end.

(** Every key of [rows] lies past [k]. *)
Definition rows_above (k : Rocks.Slice) (rows : Rocks.Rows) : Prop :=
  Forall (fun p => Rocks.Compare k (fst p) = Lt) rows.




(** The storage answers every call with OK and every allocation
    succeeds. *)
Definition serves (h : host_t) : Prop :=
  (forall k, io h k = Rocks.kOk) /\ (forall s, heap h s = true).

(** The column families a host has stored, as [Open] sees them: an empty
    path gets the default family. *)
Definition stored_families (h : host_t) : list Rocks.ColumnFamilyData :=
  match disk h with
  | [] => [{| Rocks.cf_name := Rocks.kDefaultColumnFamilyName;
              Rocks.cf_rows := [] |}]
  | _ => disk h
  end.


(** The collection a write task names is one of the database. *)
Definition names_family (d : Rocks.DB) (task : write_task_t) : Prop :=
  Rocks.family_of (Rocks.families d) d (col_or_default d (w_col task)) <> None.

(** The storage answers every call with OK. *)
Definition storage_serves (h : host_t) : Prop :=
  forall k, io h k = Rocks.kOk.

(** ** Further requests used below *)

(** The transaction [ukv_txn_begin] gives on the fresh database. *)
Definition transaction_on_fresh : Rocks.Transaction :=
  {| Rocks.txn_snapshot := Some (Rocks.families fresh_engine);
     Rocks.txn_batch := [] |}.

(** A batch that writes key 7 of the default collection twice. *)
Definition two_writes_of_7 : list write_task_t :=
  [put_task ukv_default_collection_k 7 [1; 2; 3];
   put_task ukv_default_collection_k 7 purpose_of_life].

(** Three scans of two keys each, from 10, from 20 and from 5. *)
Definition three_scans : list scan_task_t :=
  [{| s_col := ukv_default_collection_k; s_min_key := 10; s_length := 2 |};
   {| s_col := ukv_default_collection_k; s_min_key := 20; s_length := 2 |};
   {| s_col := ukv_default_collection_k; s_min_key := 5; s_length := 2 |}].

(** A committed transaction that inserts key 1 and selects key 2, and a
    later one that watches key 1. *)
Definition committed_operations : list Stress.operation_t :=
  [{| Stress.op_type := Stress.insert_k; Stress.op_key := 1;
      Stress.op_watch := false |};
   {| Stress.op_type := Stress.select_k; Stress.op_key := 2;
      Stress.op_watch := true |}].

Definition later_operations : list Stress.operation_t :=
  [{| Stress.op_type := Stress.select_k; Stress.op_key := 1;
      Stress.op_watch := true |}].

Definition no_updated_keys : Stress.updated_keys_t := fun _ => None.

(** ** Histories of writes *)

(** The column family a collection argument stands for: the default
    family, which the engine numbers 0, for [ukv_default_collection_k]
    (NULL), and the family the handle names otherwise. *)
Definition collection_family (d : Rocks.DB) (col : ukv_collection_t)
    : option nat :=
  if Nat.eqb col ukv_default_collection_k then Some 0%nat
  else Rocks.resolve d col.

(** A call of [ukv_write] outside a transaction: the host that serves it,
    its options and its tasks, all of which it is asked to write. *)
Definition write_call : Type := host_t * ukv_options_t * list write_task_t.

(** The task writes (puts or deletes) the entry of [key] in the collection
    [col]. *)
Definition writes_entry (d : Rocks.DB) (col : ukv_collection_t)
    (key : ukv_key_t) (task : write_task_t) : Prop :=
  collection_family d (w_col task) = collection_family d col /\
  w_key task = key.

(** No task of the calls writes the entry of [key] in [col]. *)
Definition never_written (d : Rocks.DB) (col : ukv_collection_t)
    (key : ukv_key_t) (history : list write_call) : Prop :=
  Forall (fun call => Forall (fun task => ~ writes_entry d col key task)
                        (snd call)) history.

(** The keys of the calls are values of [ukv_key_t], 64 bits wide. *)
Definition keys_are_64_bit (history : list write_call) : Prop :=
  Forall (fun call => Forall (fun task => 0 <= w_key task < 2 ^ 64)
                        (snd call)) history.

Section Histories.

Variable ukv_option_write_flush_k : ukv_options_t.

(** The database after the calls, made one after the other; what a call
    leaves in [*c_error] is the caller's to read. *)
Fixpoint after_writes (c_db : ukv_t) (history : list write_call)
    : outcome ukv_t :=
  match history with
  | [] => Done c_db
  | (h, c_options, tasks) :: rest =>
      r <- ukv_write ukv_option_write_flush_k h c_db None (List.length tasks)
             tasks c_options None ;;
      after_writes (fst (fst r)) rest
  end.

End Histories.

(** A host with two column families stored, both without entries, the
    database [ukv_open] gives on it, and calls that write key 42 of the
    second family and write and delete key 7 of the default one. *)
Definition two_collection_host : host_t :=
  {| io := fun _ => Rocks.kOk; heap := fun _ => true;
     disk := [{| Rocks.cf_name := Rocks.kDefaultColumnFamilyName;
                 Rocks.cf_rows := [] |};
              {| Rocks.cf_name := "sub"%string; Rocks.cf_rows := [] |}] |}.

Definition two_collection_engine : Rocks.DB :=
  {| Rocks.families := disk two_collection_host;
     Rocks.handles := [(1%nat, 0%nat); (2%nat, 0%nat); (3%nat, 1%nat)];
     Rocks.next_handle := 4 |}.

Definition two_collection_wrapper : rocks_db_wrapper_t :=
  {| columns := [2%nat; 3%nat]; db := Some two_collection_engine |}.

Definition writes_elsewhere : list write_call :=
  [(healthy_host, 0,
    [put_task 3%nat 42 purpose_of_life;
     put_task ukv_default_collection_k 7 [1]]);
   (healthy_host, 0, [delete_task ukv_default_collection_k 7])].

(** ** Two transactions, one begun before the other commits *)

(** A host whose storage refuses the engine call with ordinal 1 with
    [Busy], the engine's answer to a write it finds in conflict with
    another transaction, and serves every other call. *)
Definition conflict_host : host_t :=
  {| io := fun k => if Nat.eqb k 1 then Rocks.kBusy else Rocks.kOk;
     heap := fun _ => true; disk := [] |}.

(** The batch of the transaction begun first, which writes the keys 1 and
    2, and the batch of the one begun second, which writes key 2. *)
Definition first_transaction : list write_task_t :=
  [put_task ukv_default_collection_k 1 [97];
   put_task ukv_default_collection_k 2 [98]].

Definition second_transaction : list write_task_t :=
  [put_task ukv_default_collection_k 2 [99]].

(** [ukv_txn_commit] on the database behind [c_db], which the engine
    changes in place: the wrapper afterwards, [*c_txn] and [*c_error]. *)
Definition commit_on (h : host_t) (c_db : ukv_t) (c_txn : ukv_txn_t)
    (c_options : ukv_options_t) (c_error : ukv_error_t)
    : outcome (ukv_t * ukv_txn_t * ukv_error_t) :=
  db_wrapper <- deref c_db ;;
  d <- deref (db db_wrapper) ;;
  r <- ukv_txn_commit h d c_txn c_options c_error ;;
  let '(txn, d', c_error') := r in
  Done (Some (with_db db_wrapper d'), Some txn, c_error').

(** The calls of the two transactions on the fresh database, in the order
    they are made: both begin, the second writes and commits, then the
    first writes (the engine refuses its put of key 2, which the second
    has committed since the first took its snapshot) and commits. The run
    gives the database at the end and what each call left in [*c_error]. *)
Definition interleaved_run : outcome (ukv_t * list ukv_error_t) :=
  b1 <- ukv_txn_begin fresh_db 0 0 None None ;;
  b2 <- ukv_txn_begin fresh_db 0 0 None None ;;
  w2 <- ukv_write write_flush_bit healthy_host fresh_db (fst b2) 1
          second_transaction 0 None ;;
  c2 <- commit_on healthy_host (fst (fst w2)) (snd (fst w2)) 0 None ;;
  w1 <- ukv_write write_flush_bit conflict_host (fst (fst c2)) (fst b1) 2
          first_transaction 0 None ;;
  c1 <- commit_on healthy_host (fst (fst w1)) (snd (fst w1)) 0 None ;;
  Done (fst (fst c1), [snd b1; snd b2; snd w2; snd c2; snd w1; snd c1]).

(** The replay of the stress test: the batches of the committed
    transactions written outside a transaction to an empty database, in
    the order of their commits. *)
Definition replayed_run : outcome (ukv_t * list ukv_error_t) :=
  r2 <- ukv_write write_flush_bit healthy_host fresh_db None 1
          second_transaction 0 None ;;
  r1 <- ukv_write write_flush_bit healthy_host (fst (fst r2)) None 2
          first_transaction 0 None ;;
  Done (fst (fst r1), [snd r2; snd r1]).

(** * Properties *)

(** ** The engine model *)

Lemma Compare_refl (k : Rocks.Slice) : Rocks.Compare k k = Eq.
Proof.
  induction k as [|x k IH]; simpl; [reflexivity|].
  now rewrite Z.compare_refl.
Qed.

Lemma rows_get_put_same (k v : Rocks.Slice) (rows : Rocks.Rows) :
  Rocks.rows_get k (Rocks.rows_put k v rows) = Some v.
Proof.
  induction rows as [|[k' v'] rest IH]; simpl.
  - now rewrite Compare_refl.
  - destruct (Rocks.Compare k k') eqn:E; simpl.
    + now rewrite Compare_refl.
    + now rewrite Compare_refl.
    + now rewrite E.
Qed.

Lemma nth_error_update_family (f : nat) (g : Rocks.Rows -> Rocks.Rows)
    (fams : list Rocks.ColumnFamilyData) (c : Rocks.ColumnFamilyData) :
  nth_error fams f = Some c ->
  nth_error (Rocks.update_family f g fams) f =
    Some {| Rocks.cf_name := Rocks.cf_name c;
            Rocks.cf_rows := g (Rocks.cf_rows c) |}.
Proof.
  revert f; induction fams as [|c0 rest IH]; intros [|f] H; simpl in *;
    try discriminate.
  - now inversion H.
  - now apply IH.
Qed.

(** A handle that names a family resolves to its position. *)
Lemma family_of_resolve (fams : list Rocks.ColumnFamilyData) (d : Rocks.DB)
    (h : Rocks.ColumnFamilyHandle) (c : Rocks.ColumnFamilyData) :
  Rocks.family_of fams d h = Some c ->
  exists f, Rocks.resolve d h = Some f /\ nth_error fams f = Some c.
Proof.
  unfold Rocks.family_of.
  destruct (Rocks.resolve d h) as [f|]; [|discriminate].
  intros H; now exists f.
Qed.

(** A one-operation batch that the storage accepts, on a handle that names
    a family. *)
Lemma Write_one_op (wo : Rocks.WriteOptions) (op : Rocks.BatchOp)
    (d : Rocks.DB) (c : Rocks.ColumnFamilyData) :
  Rocks.family_of (Rocks.families d) d (Rocks.op_handle op) = Some c ->
  exists d',
    Rocks.Write Rocks.kOk wo [op] d = (Rocks.kOk, d') /\
    Rocks.handles d' = Rocks.handles d /\
    Rocks.family_of (Rocks.families d') d' (Rocks.op_handle op) =
      Some {| Rocks.cf_name := Rocks.cf_name c;
              Rocks.cf_rows := Rocks.op_rows op (Rocks.cf_rows c) |}.
Proof.
  intros Hc.
  destruct (family_of_resolve _ _ _ _ Hc) as (f & Hr & Hn).
  unfold Rocks.Write; simpl.
  unfold Rocks.apply_op; simpl. rewrite Hr, Hn.
  eexists; split; [reflexivity|]. split; [reflexivity|].
  unfold Rocks.family_of.
  change (Rocks.resolve (Rocks.with_families d _) (Rocks.op_handle op))
    with (Rocks.resolve d (Rocks.op_handle op)).
  rewrite Hr; simpl.
  now apply nth_error_update_family.
Qed.

Lemma view_length (task : write_task_t) :
  (List.length (view task) <= w_length task)%nat.
Proof.
  unfold view. destruct (w_begin task); simpl; [|lia].
  rewrite length_firstn. lia.
Qed.

Lemma healthy_host_serves : serves healthy_host.
Proof. split; intros; reflexivity. Qed.

(** The databases written out are the ones the ABI calls give. *)
Lemma fresh_db_is_fresh_wrapper : fresh_db = Some fresh_wrapper.
Proof. reflexivity. Qed.

Lemma db_with_42_is_wrapper_with_42 : db_with_42 = Some wrapper_with_42.
Proof. reflexivity. Qed.

Lemma export_error_failed (status : Rocks.Status) :
  Rocks.ok status = false ->
  fst (export_error status None) = true /\
  snd (export_error status None) <> None.
Proof.
  intros H; unfold export_error; rewrite H.
  destruct (Rocks.IsCorruption status), (Rocks.IsIOError status),
    (Rocks.IsInvalidArgument status); simpl; split; congruence.
Qed.

(** [Write] applies the whole batch or leaves the database as it was. *)
Lemma Write_all_or_nothing (inj : Rocks.Status) (wo : Rocks.WriteOptions)
    (batch : Rocks.WriteBatch) (d : Rocks.DB) :
  (exists fams,
     Rocks.apply_batch d (Rocks.families d) batch = Some fams /\
     Rocks.Write inj wo batch d = (Rocks.kOk, Rocks.with_families d fams))
  \/
  (exists status,
     Rocks.ok status = false /\ Rocks.Write inj wo batch d = (status, d)).
Proof.
  unfold Rocks.Write. destruct (Rocks.ok inj) eqn:Hinj.
  - destruct (Rocks.apply_batch d (Rocks.families d) batch) as [fams|].
    + left. now exists fams.
    + right. now exists Rocks.kInvalidArgument.
  - right. now exists inj.
Qed.

(** The operation [write_many] records for a task does to the families
    what the task asks. *)
Lemma apply_op_task (d : Rocks.DB) (fams : list Rocks.ColumnFamilyData)
    (task : write_task_t) (rest : Rocks.WriteBatch)
    (others : list write_task_t) (op : Rocks.BatchOp) :
  Rocks.op_handle op = col_or_default d (w_col task) ->
  Rocks.op_rows op = task_rows task ->
  (forall fams', Rocks.apply_batch d fams' rest = apply_tasks d fams' others) ->
  Rocks.apply_batch d fams (op :: rest) = apply_tasks d fams (task :: others).
Proof.
  intros Hh Hr IH; simpl. unfold Rocks.apply_op. rewrite Hh, Hr.
  destruct (Rocks.resolve d (col_or_default d (w_col task))) as [f|];
    [|reflexivity].
  destruct (nth_error fams f); [apply IH|reflexivity].
Qed.

Lemma skipn_nth_error {A} (l : list A) (i : nat) (a : A) :
  nth_error l i = Some a -> skipn i l = a :: skipn (S i) l.
Proof.
  revert i; induction l as [|x l IH]; intros [|i] H; simpl in *;
    try discriminate.
  - now inversion H.
  - now apply IH.
Qed.

Lemma write_many_batch_applies (d : Rocks.DB) (tasks : list write_task_t)
    (count : nat) :
  forall (i : nat) (acc : Rocks.WriteBatch),
    (i + count <= List.length tasks)%nat ->
    exists batch,
      write_many_batch d tasks i count acc = Done (acc ++ batch)%list /\
      forall fams,
        Rocks.apply_batch d fams batch =
        apply_tasks d fams (firstn count (skipn i tasks)).
Proof.
  induction count as [|count IH]; intros i acc Hle; simpl.
  - exists []. now rewrite app_nil_r.
  - destruct (nth_error tasks i) as [task|] eqn:Hnth.
    2:{ apply nth_error_None in Hnth. lia. }
    unfold at_index; rewrite Hnth; simpl.
    rewrite (skipn_nth_error _ _ _ Hnth); simpl firstn.
    destruct (IH (S i)
                (acc ++ [if is_deleted task
                         then Rocks.BDelete (col_or_default d (w_col task))
                                (to_slice (w_key task))
                         else Rocks.BPut (col_or_default d (w_col task))
                                (to_slice (w_key task)) (view task)])%list)
      as (batch & Hrun & Happ); [lia|].
    eexists (_ :: batch). split.
    + rewrite Hrun, <- app_assoc. reflexivity.
    + intros fams. apply apply_op_task; [| |exact Happ];
        unfold task_rows; destruct (is_deleted task); reflexivity.
Qed.

(** ** Keys, the comparator and the order of rows *)

Lemma le_bytes_length (n : nat) : forall x, List.length (le_bytes n x) = n.
Proof. induction n as [|n IH]; intros x; simpl; [reflexivity|now rewrite IH]. Qed.

Lemma le_value_le_bytes (n : nat) :
  forall x, le_value (le_bytes n x) = x mod 256 ^ Z.of_nat n.
Proof.
  induction n as [|n IH]; intros x.
  - simpl. now rewrite Z.mod_1_r.
  - cbn [le_bytes le_value]. rewrite IH.
    rewrite Nat2Z.inj_succ, Z.pow_succ_r by lia.
    rewrite Z.rem_mul_r by lia. reflexivity.
Qed.

Lemma Compare_eq (a : Rocks.Slice) :
  forall b, Rocks.Compare a b = Eq -> a = b.
Proof.
  induction a as [|x a IH]; intros [|y b] H; simpl in H;
    try discriminate; [reflexivity|].
  destruct (x ?= y) eqn:E; try discriminate.
  apply Z.compare_eq in E. subst y. f_equal. now apply IH.
Qed.

Lemma Compare_trans (a : Rocks.Slice) :
  forall b c,
    Rocks.Compare a b = Lt -> Rocks.Compare b c = Lt ->
    Rocks.Compare a c = Lt.
Proof.
  induction a as [|x a IH]; intros [|y b] [|z c] H1 H2; simpl in *;
    try discriminate; try reflexivity.
  destruct (x ?= y) eqn:Exy; try discriminate;
    destruct (y ?= z) eqn:Eyz; try discriminate.
  - apply Z.compare_eq in Exy, Eyz. subst. rewrite Z.compare_refl.
    now apply (IH b c).
  - apply Z.compare_eq in Exy. subst. now rewrite Eyz.
  - apply Z.compare_eq in Eyz. subst. now rewrite Exy.
  - rewrite Z.compare_lt_iff in Exy, Eyz.
    assert (E : (x ?= z) = Lt) by (apply Z.compare_lt_iff; lia).
    now rewrite E.
Qed.

Lemma Compare_antisym (a : Rocks.Slice) :
  forall b, Rocks.Compare b a = CompOpp (Rocks.Compare a b).
Proof.
  induction a as [|x a IH]; intros [|y b]; simpl; try reflexivity.
  rewrite (Z.compare_antisym x y).
  destruct (x ?= y); simpl; auto.
Qed.

Lemma rows_sorted_above (k v : Rocks.Slice) (rest : Rocks.Rows) :
  rows_sorted ((k, v) :: rest) -> rows_above k rest.
Proof.
  revert k v; induction rest as [|[k2 v2] rest IH]; intros k v H.
  - constructor.
  - destruct H as [Hlt Hrest]. constructor; [exact Hlt|].
    pose proof (IH k2 v2 Hrest) as Habove.
    unfold rows_above in *. rewrite Forall_forall in *.
    intros p Hp. eapply Compare_trans; [exact Hlt|now apply Habove].
Qed.

Lemma rows_get_above (k : Rocks.Slice) (rows : Rocks.Rows) :
  rows_above k rows -> Rocks.rows_get k rows = None.
Proof.
  induction 1 as [|[k' v'] rest Hlt _ IH]; simpl; [reflexivity|].
  simpl in Hlt. now rewrite Hlt.
Qed.

Lemma rows_above_weaken (k k' : Rocks.Slice) (rows : Rocks.Rows) :
  Rocks.Compare k k' = Lt -> rows_above k' rows -> rows_above k rows.
Proof.
  intros Hlt H. unfold rows_above in *. rewrite Forall_forall in *.
  intros p Hp. eapply Compare_trans; [exact Hlt|now apply H].
Qed.

Lemma rows_get_delete_same (k : Rocks.Slice) (rows : Rocks.Rows) :
  rows_sorted rows -> Rocks.rows_get k (Rocks.rows_delete k rows) = None.
Proof.
  induction rows as [|[k' v'] rest IH]; intros Hs; simpl; [reflexivity|].
  pose proof (rows_sorted_above _ _ _ Hs) as Habove.
  destruct (Rocks.Compare k k') eqn:E.
  - apply Compare_eq in E. subst k'. now apply rows_get_above.
  - simpl. rewrite E. apply rows_get_above.
    now apply (rows_above_weaken k k').
  - simpl. rewrite E. apply IH. now destruct Hs.
Qed.

Lemma rows_sorted_cons (k v : Rocks.Slice) (rows : Rocks.Rows) :
  rows_above k rows -> rows_sorted rows -> rows_sorted ((k, v) :: rows).
Proof.
  intros Ha Hs. split; [|exact Hs].
  destruct rows as [|[k2 v2] rest]; [exact I|].
  now inversion Ha.
Qed.

Lemma rows_put_above (k0 k v : Rocks.Slice) (rows : Rocks.Rows) :
  Rocks.Compare k0 k = Lt -> rows_above k0 rows ->
  rows_above k0 (Rocks.rows_put k v rows).
Proof.
  intros Hlt. induction 1 as [|[k' v'] rest Hk' Hrest IH]; simpl.
  - repeat constructor. exact Hlt.
  - destruct (Rocks.Compare k k'); repeat constructor; auto.
Qed.

Lemma rows_put_sorted (k v : Rocks.Slice) (rows : Rocks.Rows) :
  rows_sorted rows -> rows_sorted (Rocks.rows_put k v rows).
Proof.
  induction rows as [|[k' v'] rest IH]; intros Hs; simpl.
  - split; exact I.
  - pose proof (rows_sorted_above _ _ _ Hs) as Habove.
    destruct (Rocks.Compare k k') eqn:E.
    + apply Compare_eq in E. subst k'.
      apply rows_sorted_cons; [exact Habove|now destruct Hs].
    + apply rows_sorted_cons; [|exact Hs].
      constructor; [exact E|]. now apply (rows_above_weaken k k').
    + apply rows_sorted_cons; [|apply IH; now destruct Hs].
      apply rows_put_above; [|exact Habove].
      rewrite Compare_antisym, E. reflexivity.
Qed.

Lemma rows_delete_above (k0 k : Rocks.Slice) (rows : Rocks.Rows) :
  rows_above k0 rows -> rows_above k0 (Rocks.rows_delete k rows).
Proof.
  induction 1 as [|[k' v'] rest Hk' Hrest IH]; simpl.
  - constructor.
  - destruct (Rocks.Compare k k'); repeat constructor; auto.
Qed.

Lemma rows_delete_sorted (k : Rocks.Slice) (rows : Rocks.Rows) :
  rows_sorted rows -> rows_sorted (Rocks.rows_delete k rows).
Proof.
  induction rows as [|[k' v'] rest IH]; intros Hs; simpl; [exact I|].
  pose proof (rows_sorted_above _ _ _ Hs) as Habove.
  destruct (Rocks.Compare k k') eqn:E.
  - now destruct Hs.
  - exact Hs.
  - apply rows_sorted_cons; [|apply IH; now destruct Hs].
    now apply rows_delete_above.
Qed.

(** Every operation of a batch keeps the rows of its family in order. *)
Lemma op_rows_sorted (op : Rocks.BatchOp) (rows : Rocks.Rows) :
  rows_sorted rows -> rows_sorted (Rocks.op_rows op rows).
Proof.
  destruct op; simpl;
    [apply rows_put_sorted | apply rows_delete_sorted ..].
Qed.

Lemma le_key_round_trip (key : ukv_key_t) :
  0 <= key < 2 ^ 64 -> key_of_slice (to_slice key) = key.
Proof.
  intros H. unfold key_of_slice, to_slice.
  rewrite firstn_all2 by (rewrite le_bytes_length; lia).
  rewrite le_value_le_bytes. apply Z.mod_small.
  change (256 ^ Z.of_nat 8) with (2 ^ 64). exact H.
Qed.

Lemma to_slice_differs (k k' : ukv_key_t) :
  0 <= k < 2 ^ 64 -> 0 <= k' < 2 ^ 64 -> k <> k' ->
  Rocks.Compare (to_slice k) (to_slice k') <> Eq.
Proof.
  intros Hk Hk' Hne E. apply Compare_eq in E.
  apply Hne. rewrite <- (le_key_round_trip k Hk), <- (le_key_round_trip k' Hk').
  now rewrite E.
Qed.

Lemma nth_error_update_family_other (f f' : nat)
    (g : Rocks.Rows -> Rocks.Rows) (fams : list Rocks.ColumnFamilyData) :
  f <> f' ->
  nth_error (Rocks.update_family f g fams) f' = nth_error fams f'.
Proof.
  revert f f'; induction fams as [|c rest IH]; intros [|f] [|f'] H; simpl;
    try reflexivity; try congruence.
  apply IH. congruence.
Qed.

Lemma rows_get_put_other (k k' v : Rocks.Slice) (rows : Rocks.Rows) :
  Rocks.Compare k k' <> Eq ->
  Rocks.rows_get k (Rocks.rows_put k' v rows) = Rocks.rows_get k rows.
Proof.
  intros Hne. induction rows as [|[k0 v0] rest IH]; simpl.
  - destruct (Rocks.Compare k k'); congruence.
  - destruct (Rocks.Compare k' k0) eqn:E; simpl.
    + apply Compare_eq in E. subst k0.
      destruct (Rocks.Compare k k'); congruence.
    + destruct (Rocks.Compare k k'); congruence.
    + now rewrite IH.
Qed.

Lemma rows_get_delete_other (k k' : Rocks.Slice) (rows : Rocks.Rows) :
  Rocks.Compare k k' <> Eq ->
  Rocks.rows_get k (Rocks.rows_delete k' rows) = Rocks.rows_get k rows.
Proof.
  intros Hne. induction rows as [|[k0 v0] rest IH]; simpl; [reflexivity|].
  destruct (Rocks.Compare k' k0) eqn:E; simpl.
  - apply Compare_eq in E. subst k0.
    destruct (Rocks.Compare k k'); congruence.
  - reflexivity.
  - now rewrite IH.
Qed.

Lemma op_rows_other (op : Rocks.BatchOp) (k : Rocks.Slice)
    (rows : Rocks.Rows) :
  Rocks.Compare k (Rocks.op_key op) <> Eq ->
  Rocks.rows_get k (Rocks.op_rows op rows) = Rocks.rows_get k rows.
Proof.
  destruct op; simpl; intros H;
    [now apply rows_get_put_other | now apply rows_get_delete_other ..].
Qed.

(** A read of one key after a one-operation batch on another collection
    or another key finds what it found before. *)
Lemma Get_after_write_elsewhere (op : Rocks.BatchOp) (d : Rocks.DB)
    (fams : list Rocks.ColumnFamilyData) (hcol : Rocks.ColumnFamilyHandle)
    (k : Rocks.Slice) (inj : Rocks.Status) :
  Rocks.apply_batch d (Rocks.families d) [op] = Some fams ->
  Rocks.resolve d (Rocks.op_handle op) <> Rocks.resolve d hcol \/
  Rocks.Compare k (Rocks.op_key op) <> Eq ->
  Rocks.Get inj default_read_options hcol k (Rocks.with_families d fams) =
  Rocks.Get inj default_read_options hcol k d.
Proof.
  intros Happ Hother. unfold Rocks.Get.
  destruct (Rocks.ok inj); [|reflexivity].
  unfold Rocks.family_of, Rocks.read_view; simpl.
  change (Rocks.resolve (Rocks.with_families d fams) hcol)
    with (Rocks.resolve d hcol).
  simpl in Happ. unfold Rocks.apply_op in Happ.
  destruct (Rocks.resolve d (Rocks.op_handle op)) as [f|]; [|discriminate].
  destruct (nth_error (Rocks.families d) f) as [c0|] eqn:Hc0; [|discriminate].
  inversion Happ; subst fams; clear Happ.
  destruct (Rocks.resolve d hcol) as [fb|]; [|reflexivity].
  destruct (Nat.eq_dec f fb) as [->|Hne].
  - destruct Hother as [Hres|Hkey]; [congruence|].
    rewrite (nth_error_update_family _ _ _ _ Hc0), Hc0; simpl.
    now rewrite op_rows_other.
  - now rewrite nth_error_update_family_other.
Qed.


(** ** Batch reads *)






(** The inner loop of a scan never moves the index down. *)
Lemma scan_fill_index (len : nat) (rows : Rocks.Rows) :
  forall (i : nat) (slots : scan_slots) (r : nat * scan_slots),
    scan_fill len rows i slots = Done r -> (i <= fst r)%nat.
Proof.
  induction rows as [|[k v] rest IH]; intros i slots r H; simpl in H.
  - inversion H; simpl; lia.
  - destruct (Nat.eqb i len); [inversion H; simpl; lia|].
    destruct (store (fst slots) i (key_of_slice k)) as [keys|];
      [|discriminate].
    destruct (store (snd slots) i (to_val_len (List.length v))) as [lens|];
      [|discriminate].
    simpl in H. apply IH in H. lia.
Qed.

Lemma scan_tasks_turn (fuel : nat) (c_db : ukv_t) (txn : rocks_txn_ptr_t)
    (tasks : list scan_task_t) (n : nat) (options : Rocks.ReadOptions)
    (i : nat) (slots : scan_slots) :
  scan_tasks (S fuel) c_db txn tasks n options i slots =
  if Nat.eqb i n then Done slots
  else
    r <- scan_task c_db txn tasks options i slots ;;
    scan_tasks fuel c_db txn tasks n options (S (fst r)) (snd r).
Proof. reflexivity. Qed.

(** The task loop of a scan has all the fuel it can use: once the fuel
    covers the tasks from [i] on, one more unit changes nothing. *)
Lemma scan_tasks_fuel (c_db : ukv_t) (txn : rocks_txn_ptr_t)
    (tasks : list scan_task_t) (n : nat) (options : Rocks.ReadOptions)
    (fuel : nat) :
  forall (i : nat) (slots : scan_slots),
    (List.length tasks <= i + fuel)%nat ->
    scan_tasks (S fuel) c_db txn tasks n options i slots =
    scan_tasks fuel c_db txn tasks n options i slots.
Proof.
  induction fuel as [|fuel IH]; intros i slots Hle.
  - rewrite scan_tasks_turn. simpl.
    destruct (Nat.eqb i n); [reflexivity|].
    unfold scan_task, at_index.
    destruct (nth_error tasks i) eqn:E; [|reflexivity].
    assert (H : nth_error tasks i <> None) by congruence.
    apply nth_error_Some in H. lia.
  - rewrite (scan_tasks_turn (S fuel)), (scan_tasks_turn fuel).
    destruct (Nat.eqb i n); [reflexivity|].
    destruct (scan_task c_db txn tasks options i slots) as [r|] eqn:E;
      [|reflexivity].
    cbn [bind]. apply IH.
    unfold scan_task in E.
    destruct (at_index tasks i) as [task|]; [|discriminate]. cbn [bind] in E.
    destruct (deref c_db) as [w|]; [|discriminate]. cbn [bind] in E.
    destruct (deref (db w)) as [d|]; [|discriminate]. cbn [bind] in E.
    apply scan_fill_index in E. lia.
Qed.

Section Properties.

Variable ukv_option_write_flush_k : ukv_options_t.
Variable ukv_option_read_transparent_k : ukv_options_t.
Variable sizeof_ukv_size_t : nat.

(** A single read outside a transaction, on a handle that names a family,
    when the storage and the allocator serve it. *)
Lemma ukv_read_single (h : host_t) (w : rocks_db_wrapper_t) (d : Rocks.DB)
    (c : Rocks.ColumnFamilyData) (col : ukv_collection_t) (key : ukv_key_t)
    (c_options : ukv_options_t) (out : read_out) (c_arena : ukv_arena_t) :
  serves h ->
  db w = Some d ->
  Rocks.family_of (Rocks.families d) d (col_or_default d col) = Some c ->
  exists arena,
    ukv_read ukv_option_read_transparent_k sizeof_ukv_size_t h (Some w) None
      1 [{| r_col := col; r_key := key |}] c_options out c_arena None =
    Done
      (match Rocks.rows_get (to_slice key) (Rocks.cf_rows c) with
       | Some v =>
           {| c_found_lengths := Some [Z.of_nat (List.length v) mod 2 ^ 32];
              c_found_values := Some v |}
       | None =>
           {| c_found_lengths := Some [ukv_val_len_missing_k];
              c_found_values := Some [] |}
       end, Some arena, None).
Proof.
  intros [Hio Hheap] Hd Hc.
  unfold ukv_read; simpl.
  assert (Ha : exists a, cast_arena h c_arena None = (Some a, None)).
  { unfold cast_arena. destruct c_arena as [a|]; [now exists a|].
    rewrite Hheap. now eexists. }
  destruct Ha as [a Ha]; rewrite Ha; simpl.
  unfold read_one; simpl. rewrite Hd; simpl.
  unfold make_value; rewrite Hheap; simpl.
  unfold Rocks.Get; rewrite Hio; simpl.
  unfold default_read_options, Rocks.read_view; simpl. rewrite Hc.
  unfold prepare_memory.
  destruct (Rocks.rows_get (to_slice key) (Rocks.cf_rows c)) as [v|]; simpl;
    rewrite Hheap; simpl; eexists; reflexivity.
Qed.

(** Outside a transaction, a single write of a value under a key in a
    collection of the open database, followed by a single read of that key,
    shows exactly the value (its length and its bytes); and a single read of
    a key the collection holds no entry for shows the length
    [ukv_val_len_missing_k]. *)
Lemma single_write_then_read
    (h1 h2 : host_t) (w : rocks_db_wrapper_t) (d : Rocks.DB)
    (c : Rocks.ColumnFamilyData) (task : write_task_t)
    (write_options read_options : ukv_options_t) (out : read_out)
    (c_arena : ukv_arena_t) :
  serves h1 -> serves h2 ->
  db w = Some d ->
  Rocks.family_of (Rocks.families d) d (col_or_default d (w_col task))
    = Some c ->
  is_deleted task = false ->
  Z.of_nat (w_length task) < 2 ^ 32 ->
  (exists w' arena,
     ukv_write ukv_option_write_flush_k h1 (Some w) None 1 [task]
       write_options None = Done (Some w', None, None) /\
     ukv_read ukv_option_read_transparent_k sizeof_ukv_size_t h2 (Some w')
       None 1 [get_task (w_col task) (w_key task)] read_options out c_arena
       None =
     Done ({| c_found_lengths := Some [Z.of_nat (List.length (view task))];
              c_found_values := Some (view task) |}, Some arena, None))
  /\
  (Rocks.rows_get (to_slice (w_key task)) (Rocks.cf_rows c) = None ->
   exists arena,
     ukv_read ukv_option_read_transparent_k sizeof_ukv_size_t h2 (Some w)
       None 1 [get_task (w_col task) (w_key task)] read_options out c_arena
       None =
     Done ({| c_found_lengths := Some [ukv_val_len_missing_k];
              c_found_values := Some [] |}, Some arena, None)).
Proof.
  intros Hs1 Hs2 Hd Hc Hdel Hlen. split.
  - destruct (Write_one_op
                {| Rocks.sync :=
                     negb (Z.land write_options ukv_option_write_flush_k =? 0) |}
                (Rocks.BPut (col_or_default d (w_col task))
                   (to_slice (w_key task)) (view task)) d c Hc)
      as (d' & Hput & Hh & Hc'). simpl in Hc'.
    assert (Hcol : col_or_default d' (w_col task)
                   = col_or_default d (w_col task)) by reflexivity.
    rewrite <- Hcol in Hc'.
    destruct (ukv_read_single h2 (with_db w d') d' _ (w_col task)
                (w_key task) read_options out c_arena Hs2 eq_refl Hc')
      as [arena Hread].
    exists (with_db w d'), arena. split.
    + unfold ukv_write, write_one; simpl. rewrite Hd; simpl.
      rewrite Hdel. destruct Hs1 as [Hio _]. rewrite Hio.
      unfold Rocks.Put. rewrite Hput. reflexivity.
    + unfold get_task. rewrite Hread. simpl.
      rewrite rows_get_put_same.
      rewrite Z.mod_small; [reflexivity|].
      pose proof (view_length task). lia.
  - intros Habsent.
    destruct (ukv_read_single h2 w d c (w_col task) (w_key task)
                read_options out c_arena Hs2 Hd Hc) as [arena Hread].
    exists arena. unfold get_task. now rewrite Hread, Habsent.
Qed.

(** C7: a read or a scan inside a transaction without the
    [read_transparent] option is refused: [*c_error] is set and neither the
    out-pointers nor the arena are touched. *)
Theorem non_transparent_read_and_scan_refused
    (h : host_t) (c_db : ukv_t) (t : Rocks.Transaction) (n : nat)
    (reads : list read_task_t) (scans : list scan_task_t)
    (c_options : ukv_options_t) (rout : read_out) (sout : scan_out)
    (c_arena : ukv_arena_t) (c_error : ukv_error_t) :
  Z.land c_options ukv_option_read_transparent_k = 0 ->
  ukv_read ukv_option_read_transparent_k sizeof_ukv_size_t h c_db (Some t) n
    reads c_options rout c_arena c_error =
  Done (rout, c_arena,
        Some "RocksDB only supports transparent reads!"%string)
  /\
  ukv_scan ukv_option_read_transparent_k h c_db (Some t) n scans c_options
    sout c_arena c_error =
  Done (sout, c_arena,
        Some "RocksDB only supports transparent reads!"%string).
Proof.
  intros Hbit. unfold ukv_read, ukv_scan; simpl.
  rewrite Hbit; simpl. split; reflexivity.
Qed.

(** What a write outside a transaction leaves: every entry of the batch
    applied and a null error, or the database as it was and the error
    set. *)
Lemma ukv_write_outside_result (h : host_t) (w : rocks_db_wrapper_t)
    (d : Rocks.DB) (n : nat) (tasks : list write_task_t)
    (c_options : ukv_options_t) :
  db w = Some d ->
  (n <= List.length tasks)%nat ->
  exists d' err,
    ukv_write ukv_option_write_flush_k h (Some w) None n tasks c_options
      None = Done (Some (with_db w d'), None, err) /\
    ((err = None /\
      exists fams,
        apply_tasks d (Rocks.families d) (firstn n tasks) = Some fams /\
        d' = Rocks.with_families d fams)
     \/ (err <> None /\ d' = d)).
Proof.
  intros Hd Hn.
  assert (Hfinish : forall batch,
            (forall fams, Rocks.apply_batch d fams batch
                          = apply_tasks d fams (firstn n tasks)) ->
            forall wo,
            exists d' err,
              (let (status, d0) := Rocks.Write (io h 0) wo batch d in
               Done (Some (with_db w d0), @None Rocks.Transaction,
                     snd (export_error status None)))
              = Done (Some (with_db w d'), None, err) /\
              ((err = None /\
                exists fams,
                  apply_tasks d (Rocks.families d) (firstn n tasks)
                    = Some fams /\
                  d' = Rocks.with_families d fams)
               \/ (err <> None /\ d' = d))).
  { intros batch Happ wo.
    destruct (Write_all_or_nothing (io h 0) wo batch d)
      as [(fams & Hfams & HW)|(status & Hbad & HW)]; rewrite HW.
    - exists (Rocks.with_families d fams), None. split; [reflexivity|].
      left. split; [reflexivity|]. exists fams. now rewrite <- Happ.
    - exists d, (snd (export_error status None)). split; [reflexivity|].
      right. split; [apply export_error_failed; exact Hbad|reflexivity]. }
  unfold ukv_write. destruct (Nat.eqb n 1) eqn:E.
  - apply Nat.eqb_eq in E; subst n.
    destruct tasks as [|task rest]; [simpl in Hn; lia|].
    unfold write_one; simpl. rewrite Hd; simpl.
    destruct (is_deleted task) eqn:Hdel.
    + apply Hfinish. intros fams.
      apply apply_op_task; [reflexivity| |reflexivity].
      unfold task_rows; now rewrite Hdel.
    + apply Hfinish. intros fams.
      apply apply_op_task; [reflexivity| |reflexivity].
      unfold task_rows; now rewrite Hdel.
  - unfold write_many; simpl. rewrite Hd; simpl.
    destruct (write_many_batch_applies d tasks n 0 [] Hn)
      as (batch & Hrun & Happ).
    rewrite Hrun; simpl. now apply Hfinish.
Qed.


(** A single read sees the database only through [Get]. *)
Lemma ukv_read_single_through_Get (h : host_t) (w : rocks_db_wrapper_t)
    (d d' : Rocks.DB) (col : ukv_collection_t) (key : ukv_key_t)
    (c_options : ukv_options_t) (out : read_out) (c_arena : ukv_arena_t)
    (c_error : ukv_error_t) :
  db w = Some d ->
  Rocks.Get (io h 0) default_read_options (col_or_default d col)
    (to_slice key) d' =
  Rocks.Get (io h 0) default_read_options (col_or_default d col)
    (to_slice key) d ->
  ukv_read ukv_option_read_transparent_k sizeof_ukv_size_t h
    (Some (with_db w d')) None 1 [get_task col key] c_options out c_arena
    c_error =
  ukv_read ukv_option_read_transparent_k sizeof_ukv_size_t h (Some w) None 1
    [get_task col key] c_options out c_arena c_error.
Proof.
  intros Hd HGet. unfold ukv_read; simpl.
  destruct (cast_arena h c_arena c_error) as [[a|] e]; [|reflexivity].
  simpl. unfold read_one; simpl. rewrite Hd; simpl.
  destruct (make_value h e) as [[v|] e']; [|reflexivity]. simpl.
  change (col_or_default d' col) with (col_or_default d col).
  now rewrite HGet.
Qed.

(** X3: outside a transaction, a single write (a put or a deletion,
    accepted by the storage or not) leaves every single read of another
    collection, or of another key of the same collection, as it was. *)
Theorem write_leaves_other_entries
    (h1 h2 : host_t) (w : rocks_db_wrapper_t) (d : Rocks.DB)
    (task : write_task_t) (col : ukv_collection_t) (key : ukv_key_t)
    (write_options read_options : ukv_options_t) (out : read_out)
    (c_arena : ukv_arena_t) :
  db w = Some d ->
  Rocks.resolve d (col_or_default d (w_col task))
    <> Rocks.resolve d (col_or_default d col)
  \/ (0 <= w_key task < 2 ^ 64 /\ 0 <= key < 2 ^ 64 /\ w_key task <> key) ->
  exists w' err,
    ukv_write ukv_option_write_flush_k h1 (Some w) None 1 [task]
      write_options None = Done (Some w', None, err) /\
    ukv_read ukv_option_read_transparent_k sizeof_ukv_size_t h2 (Some w')
      None 1 [get_task col key] read_options out c_arena None =
    ukv_read ukv_option_read_transparent_k sizeof_ukv_size_t h2 (Some w)
      None 1 [get_task col key] read_options out c_arena None.
Proof.
  intros Hd Hother.
  set (wo := {| Rocks.sync :=
                  negb (Z.land write_options ukv_option_write_flush_k =? 0) |}).
  set (op := if is_deleted task
             then Rocks.BSingleDelete (col_or_default d (w_col task))
                    (to_slice (w_key task))
             else Rocks.BPut (col_or_default d (w_col task))
                    (to_slice (w_key task)) (view task)).
  assert (Hrun : ukv_write ukv_option_write_flush_k h1 (Some w) None 1 [task]
                   write_options None =
                 let (status, d') := Rocks.Write (io h1 0) wo [op] d in
                 Done (Some (with_db w d'), None,
                       snd (export_error status None))).
  { unfold ukv_write, write_one; simpl. rewrite Hd; simpl.
    unfold op. destruct (is_deleted task); reflexivity. }
  assert (Hh : Rocks.op_handle op = col_or_default d (w_col task))
    by (unfold op; destruct (is_deleted task); reflexivity).
  assert (Hk : Rocks.op_key op = to_slice (w_key task))
    by (unfold op; destruct (is_deleted task); reflexivity).
  rewrite Hrun.
  destruct (Write_all_or_nothing (io h1 0) wo [op] d)
    as [(fams & Hfams & HW)|(status & Hbad & HW)]; rewrite HW.
  - eexists _, _. split; [reflexivity|].
    apply (ukv_read_single_through_Get h2 w d); [exact Hd|].
    apply (Get_after_write_elsewhere op); [exact Hfams|].
    rewrite Hh, Hk. destruct Hother as [Hres|(Hk1 & Hk2 & Hne)].
    + now left.
    + right. apply to_slice_differs; auto.
  - eexists _, _. split; [reflexivity|].
    now apply (ukv_read_single_through_Get h2 w d).
Qed.



(** X2: outside a transaction, a single write with a null value pointer
    under a key, followed by a single read of that key, shows the length
    [ukv_val_len_missing_k]. *)
Theorem delete_then_read_shows_missing
    (h1 h2 : host_t) (w : rocks_db_wrapper_t) (d : Rocks.DB)
    (c : Rocks.ColumnFamilyData) (task : write_task_t)
    (write_options read_options : ukv_options_t) (out : read_out)
    (c_arena : ukv_arena_t) :
  serves h1 -> serves h2 ->
  db w = Some d ->
  Rocks.family_of (Rocks.families d) d (col_or_default d (w_col task))
    = Some c ->
  rows_sorted (Rocks.cf_rows c) ->
  is_deleted task = true ->
  exists w' arena,
    ukv_write ukv_option_write_flush_k h1 (Some w) None 1 [task]
      write_options None = Done (Some w', None, None) /\
    ukv_read ukv_option_read_transparent_k sizeof_ukv_size_t h2 (Some w')
      None 1 [get_task (w_col task) (w_key task)] read_options out c_arena
      None =
    Done ({| c_found_lengths := Some [ukv_val_len_missing_k];
             c_found_values := Some [] |}, Some arena, None).
Proof.
  intros Hs1 Hs2 Hd Hc Hsorted Hdel.
  destruct (Write_one_op
              {| Rocks.sync :=
                   negb (Z.land write_options ukv_option_write_flush_k =? 0) |}
              (Rocks.BSingleDelete (col_or_default d (w_col task))
                 (to_slice (w_key task))) d c Hc)
    as (d' & Hput & Hh & Hc'). simpl in Hc'.
  assert (Hcol : col_or_default d' (w_col task)
                 = col_or_default d (w_col task)) by reflexivity.
  rewrite <- Hcol in Hc'.
  destruct (ukv_read_single h2 (with_db w d') d' _ (w_col task) (w_key task)
              read_options out c_arena Hs2 eq_refl Hc') as [arena Hread].
  exists (with_db w d'), arena. split.
  - unfold ukv_write, write_one; simpl. rewrite Hd; simpl.
    rewrite Hdel. destruct Hs1 as [Hio _]. rewrite Hio.
    unfold Rocks.SingleDelete. rewrite Hput. reflexivity.
  - unfold get_task. rewrite Hread. simpl.
    now rewrite rows_get_delete_same.
Qed.


End Properties.

(** X1: the key a scan copies out of a slice is the key [to_slice] laid
    out: the two conversions are inverse on 64-bit keys. *)
Theorem scanned_key_is_the_written_key (key : ukv_key_t) :
  0 <= key < 2 ^ 64 -> key_of_slice (to_slice key) = key.
Proof. exact (le_key_round_trip key). Qed.

(** ** The properties at concrete requests *)

(** C2 at a batch of two reads: key 7 is held with an empty value, key 8 is
    not held, and [ukv_read] shows [ukv_val_len_missing_k] for both. *)
Theorem batch_read_shows_empty_value_as_missing :
  db_with_empty_7 =
  Some (with_db fresh_wrapper
          (Rocks.with_families fresh_engine
             [{| Rocks.cf_name := Rocks.kDefaultColumnFamilyName;
                 Rocks.cf_rows := [(to_slice 7, [])] |}])) /\
  ukv_read read_transparent_bit size_t_bytes healthy_host db_with_empty_7
    None 2
    [get_task ukv_default_collection_k 7; get_task ukv_default_collection_k 8]
    0 no_read_out None None =
  Done ({| c_found_lengths :=
             Some [ukv_val_len_missing_k; ukv_val_len_missing_k];
           c_found_values := Some [] |}, Some {| output_tape := 8 |}, None).
Proof. split; reflexivity. Qed.

(** C4 at the scan of the spec's scenario: one task [(default, 10, 5)]
    over the keys 5, 10, 12, 20, 25, 30. The tape has one slot per task;
    the second key is stored past it. And at three tasks of two keys each,
    from 10, from 20 and from 5, where no store leaves the tape: the slots
    hold the two keys of the first task and nothing of the others. *)
Theorem scan_of_five_keys_leaves_the_tape :
  ukv_scan read_transparent_bit healthy_host db_with_six_keys None 1
    [{| s_col := ukv_default_collection_k; s_min_key := 10;
        s_length := 5 |}]
    0 no_scan_out None None = Fault OutOfBounds
  /\
  ukv_scan read_transparent_bit healthy_host db_with_six_keys None 3
    [{| s_col := ukv_default_collection_k; s_min_key := 10;
        s_length := 2 |};
     {| s_col := ukv_default_collection_k; s_min_key := 20;
        s_length := 2 |};
     {| s_col := ukv_default_collection_k; s_min_key := 5;
        s_length := 2 |}]
    0 no_scan_out None None =
  Done ({| c_found_keys := Some [Some 10; Some 12; None];
           c_found_lens := Some [Some 2; Some 0; None] |},
        Some {| output_tape := 36 |}, None).
Proof. split; reflexivity. Qed.

(** C5 at the name "sub" on the fresh database: the engine creates the
    column family, and the call leaves [*c_col] and [columns] as they
    were, with a null error. *)
Theorem collection_open_drops_created_handle (c_col : ukv_collection_t) :
  exists d',
    ukv_collection_open healthy_host fresh_db (Some "sub"%string) c_col None
      = Done ({| columns := columns fresh_wrapper; db := Some d' |},
              c_col, None) /\
    map Rocks.cf_name (Rocks.families d') = ["default"; "sub"]%string.
Proof. eexists; split; reflexivity. Qed.

(** C6 at the default collection holding key 42: [ukv_collection_remove]
    of "default" completes with a null error, and key 42 is read back with
    its 15 bytes afterwards. *)
Theorem collection_remove_keeps_entries :
  exists w',
    ukv_collection_remove healthy_host db_with_42 (Some "default"%string)
      None = Done (w', None) /\
    ukv_read read_transparent_bit size_t_bytes healthy_host (Some w') None 1
      [get_task ukv_default_collection_k 42] 0 no_read_out None None =
    Done ({| c_found_lengths := Some [15];
             c_found_values := Some purpose_of_life |},
          Some {| output_tape := 23 |}, None).
Proof. eexists; split; reflexivity. Qed.

(** Witness of C7: a read and a scan with no option set, inside a
    transaction begun on the fresh database. *)
Lemma non_transparent_read_and_scan_refused_witness :
  ukv_read read_transparent_bit size_t_bytes healthy_host fresh_db
    (Some {| Rocks.txn_snapshot := Some (Rocks.families fresh_engine);
             Rocks.txn_batch := [] |}) 1
    [get_task ukv_default_collection_k 42] 0 no_read_out None None =
  Done (no_read_out, None,
        Some "RocksDB only supports transparent reads!"%string)
  /\
  ukv_scan read_transparent_bit healthy_host fresh_db
    (Some {| Rocks.txn_snapshot := Some (Rocks.families fresh_engine);
             Rocks.txn_batch := [] |}) 1
    [{| s_col := ukv_default_collection_k; s_min_key := 10;
        s_length := 5 |}] 0 no_scan_out None None =
  Done (no_scan_out, None,
        Some "RocksDB only supports transparent reads!"%string).
Proof.
  exact (non_transparent_read_and_scan_refused read_transparent_bit
           size_t_bytes healthy_host fresh_db _ 1 _ _ 0 no_read_out
           no_scan_out None None eq_refl).
Defined.

(** C3 at two transactions: the first begins, the second begins, writes
    key 2 and commits, and then the first writes the keys 1 and 2 in one
    call and commits. The engine refuses the first transaction's put of
    key 2; [write_many] drops the status, so every call of the run leaves
    a null error and both transactions commit. The database then holds
    the second transaction's value under key 2, and the replay of the two
    batches in the order of the commits holds the first's. *)
Theorem committed_transactions_do_not_replay :
  exists concurrent replayed,
    interleaved_run =
      Done (concurrent, [None; None; None; None; None; None]) /\
    replayed_run = Done (replayed, [None; None]) /\
    ukv_read read_transparent_bit size_t_bytes healthy_host concurrent None 1
      [get_task ukv_default_collection_k 2] 0 no_read_out None None =
    Done ({| c_found_lengths := Some [1]; c_found_values := Some [99] |},
          Some {| output_tape := 9 |}, None) /\
    ukv_read read_transparent_bit size_t_bytes healthy_host replayed None 1
      [get_task ukv_default_collection_k 2] 0 no_read_out None None =
    Done ({| c_found_lengths := Some [1]; c_found_values := Some [98] |},
          Some {| output_tape := 9 |}, None).
Proof. eexists _, _. repeat split; reflexivity. Qed.

(** C8 at three calls. A [ukv_write] of two entries inside a transaction,
    the second of which the engine refuses: the call leaves a null error
    with one entry of the two recorded, and after the commit key 1 is held
    and key 2 is not. A [ukv_open] on a host whose storage fails: it sets
    the error and still changes [*c_db], which held NULL, to a wrapper. A
    [ukv_collection_open] that the storage fails: it sets the error and
    still adds a null handle to [columns] and changes [*c_col]. *)
Theorem failed_calls_leave_mutations :
  (exists t' c_db',
     ukv_write write_flush_bit conflict_host (Some fresh_wrapper)
       (Some transaction_on_fresh) 2 first_transaction 0 None =
     Done (Some fresh_wrapper, Some t', None) /\
     Rocks.txn_batch t' = [Rocks.BPut 1%nat (to_slice 1) [97]] /\
     commit_on healthy_host (Some fresh_wrapper) (Some t') 0 None =
     Done (c_db',
           Some {| Rocks.txn_snapshot := None; Rocks.txn_batch := [] |},
           None) /\
     ukv_read read_transparent_bit size_t_bytes healthy_host c_db' None 2
       [get_task ukv_default_collection_k 1;
        get_task ukv_default_collection_k 2] 0 no_read_out None None =
     Done ({| c_found_lengths := Some [1; ukv_val_len_missing_k];
              c_found_values := Some [97] |},
           Some {| output_tape := 9 |}, None))
  /\
  ukv_open broken_disk_host None None None =
  (Some {| columns := []; db := None |}, Some "Open Error"%string)
  /\
  ukv_collection_open broken_disk_host (Some fresh_wrapper)
    (Some "sub"%string) 7%nat None =
  Done ({| columns := [2%nat; 0%nat]; db := Some fresh_engine |}, 0%nat,
        Some "Failure: IO  Error"%string).
Proof.
  split; [|split; reflexivity].
  eexists _, _. repeat split; reflexivity.
Qed.


(** C9 at the single task that reads key 7, held with an empty value: the
    singleton path shows the length 0, the batch path run on the same task
    shows [ukv_val_len_missing_k]. *)
Theorem read_one_and_read_many_differ_on_empty_value :
  read_one size_t_bytes healthy_host db_with_empty_7 None
    [get_task ukv_default_collection_k 7] 1 default_read_options no_read_out
    {| output_tape := 0 |} None =
  Done ({| c_found_lengths := Some [0]; c_found_values := Some [] |},
        {| output_tape := 8 |}, None)
  /\
  read_many healthy_host db_with_empty_7 None
    [get_task ukv_default_collection_k 7] 1 default_read_options no_read_out
    {| output_tape := 0 |} None =
  Done ({| c_found_lengths := Some [ukv_val_len_missing_k];
           c_found_values := Some [] |}, {| output_tape := 4 |}, None).
Proof. split; reflexivity. Qed.

(** C10 at equal operands: [operator<] holds of every pair with itself,
    where the lexicographic order does not, and [operator==] holds of no
    pair with itself. *)
Theorem neighborship_operators_on_equal_operands (a : Graph.neighborship_t) :
  Graph.lt a a = true /\ Graph.lex_lt a a = false /\ Graph.eq a a = false.
Proof.
  unfold Graph.lt, Graph.lex_lt, Graph.eq.
  rewrite Z.eqb_refl, !Z.ltb_irrefl. repeat split; reflexivity.
Qed.

(** Witness of X1: key 42. *)
Lemma scanned_key_is_the_written_key_witness :
  key_of_slice (to_slice 42) = 42.
Proof. apply scanned_key_is_the_written_key. lia. Defined.

(** Witness of X2: key 42 of the default collection, deleted and read. *)
Lemma delete_then_read_shows_missing_witness :
  exists w' arena,
    ukv_write write_flush_bit healthy_host (Some wrapper_with_42) None 1
      [delete_task ukv_default_collection_k 42] 0 None =
    Done (Some w', None, None) /\
    ukv_read read_transparent_bit size_t_bytes healthy_host (Some w') None 1
      [get_task ukv_default_collection_k 42] 0 no_read_out None None =
    Done ({| c_found_lengths := Some [ukv_val_len_missing_k];
             c_found_values := Some [] |}, Some arena, None).
Proof.
  exact (delete_then_read_shows_missing write_flush_bit read_transparent_bit
           size_t_bytes healthy_host healthy_host wrapper_with_42
           engine_with_42
           {| Rocks.cf_name := Rocks.kDefaultColumnFamilyName;
              Rocks.cf_rows := [(to_slice 42, purpose_of_life)] |}
           (delete_task ukv_default_collection_k 42) 0 0 no_read_out None
           healthy_host_serves healthy_host_serves eq_refl eq_refl
           (conj I I) eq_refl).
Defined.

(** Witness of X3: key 7 is written, key 42 of the same collection is
    read. *)
Lemma write_leaves_other_entries_witness :
  exists w' err,
    ukv_write write_flush_bit healthy_host (Some wrapper_with_42) None 1
      [put_task ukv_default_collection_k 7 []] 0 None =
    Done (Some w', None, err) /\
    ukv_read read_transparent_bit size_t_bytes healthy_host (Some w') None 1
      [get_task ukv_default_collection_k 42] 0 no_read_out None None =
    ukv_read read_transparent_bit size_t_bytes healthy_host
      (Some wrapper_with_42) None 1 [get_task ukv_default_collection_k 42] 0
      no_read_out None None.
Proof.
  apply (write_leaves_other_entries write_flush_bit read_transparent_bit
           size_t_bytes healthy_host healthy_host wrapper_with_42
           engine_with_42 (put_task ukv_default_collection_k 7 [])
           ukv_default_collection_k 42 0 0 no_read_out None eq_refl).
  right. simpl. lia.
Defined.


(** ** Opening the database and its collections *)



Lemma open_handles_find (names : list string) :
  forall first f j,
    (j < List.length names)%nat ->
    find (fun p => Nat.eqb (fst p) (first + j))
      (Rocks.open_handles first f names) = Some ((first + j)%nat, (f + j)%nat).
Proof.
  induction names as [|nm names IH]; intros first f j Hj; simpl in *; [lia|].
  destruct j as [|j].
  - rewrite Nat.add_0_r, Nat.eqb_refl. now rewrite Nat.add_0_r.
  - destruct (Nat.eqb_spec first (first + S j)); [lia|].
    replace (first + S j)%nat with (S first + j)%nat by lia.
    rewrite (IH (S first) (S f) j) by lia. f_equal. f_equal; lia.
Qed.

Lemma open_handles_nth (names : list string) :
  forall first f j,
    (j < List.length names)%nat ->
    nth_error (map fst (Rocks.open_handles first f names)) j
    = Some (first + j)%nat.
Proof.
  induction names as [|nm names IH]; intros first f j Hj; simpl in *; [lia|].
  destruct j as [|j]; simpl; [now rewrite Nat.add_0_r|].
  rewrite IH by lia. f_equal. lia.
Qed.

Lemma open_handles_length (names : list string) :
  forall first f,
    List.length (Rocks.open_handles first f names) = List.length names.
Proof.
  induction names as [|nm names IH]; intros first f; simpl;
    [reflexivity|now rewrite IH].
Qed.

(** The handles [Open] fills [columns] with name the families in the
    order they are stored. *)
Lemma opened_handles_name_families (fams : list Rocks.ColumnFamilyData)
    (next : nat) (i : nat) (handle : rocks_col_ptr_t) :
  nth_error
    (map fst (Rocks.open_handles 2 0 (map Rocks.cf_name fams))) i
  = Some handle ->
  handle <> 0%nat /\
  Rocks.family_of fams
    {| Rocks.families := fams;
       Rocks.handles :=
         (1%nat, 0%nat)
         :: Rocks.open_handles 2 0 (map Rocks.cf_name fams);
       Rocks.next_handle := next |} handle
  = nth_error fams i.
Proof.
  intros Hnth.
  assert (Hi : (i < List.length (map Rocks.cf_name fams))%nat).
  { assert (Hs : nth_error
                   (map fst
                      (Rocks.open_handles 2 0 (map Rocks.cf_name fams))) i
                 <> None) by congruence.
    apply nth_error_Some in Hs.
    now rewrite length_map, open_handles_length in Hs. }
  rewrite open_handles_nth in Hnth by exact Hi. inversion Hnth; subst.
  split; [lia|].
  pose proof (open_handles_find _ 2 0 i Hi) as Hf.
  unfold Rocks.family_of, Rocks.resolve; simpl in Hf |- *.
  now rewrite Hf.
Qed.

(** X5: when the storage lets the database open, [ukv_open] leaves
    [*c_error] as it was and stores a wrapper whose database holds the
    stored column families (the default family alone for an empty path)
    and whose [columns] has one non-null handle per family, the handle at
    position [i] naming the family at position [i]. *)
Theorem open_registers_stored_families
    (h : host_t) (c_config : option string) (c_db : ukv_t)
    (c_error : ukv_error_t) :
  Rocks.ok (io h 0) = true ->
  exists w d,
    ukv_open h c_config c_db c_error = (Some w, c_error) /\
    db w = Some d /\
    Rocks.families d = stored_families h /\
    List.length (columns w) = List.length (stored_families h) /\
    forall i handle,
      nth_error (columns w) i = Some handle ->
      handle <> 0%nat /\
      Rocks.family_of (Rocks.families d) d handle
      = nth_error (stored_families h) i.
Proof.
  intros Hok.
  unfold ukv_open, Rocks.Open, Rocks.LoadLatestOptions, stored_families.
  rewrite Hok.
  destruct (disk h) as [|c0 rest]; cbn [map];
    (destruct (list_eq_dec string_dec _ _) as [_|Hne];
       [|exfalso; apply Hne; reflexivity]);
    cbn [negb Rocks.ok];
    (eexists _, _; split; [reflexivity|]; split; [reflexivity|];
     split; [reflexivity|]; split;
     [ cbn [columns]; rewrite length_map, open_handles_length; simpl;
       rewrite ?length_map; reflexivity
     | cbn [columns Rocks.families] ]).
  - intros i handle Hnth.
    apply (opened_handles_name_families
             [{| Rocks.cf_name := Rocks.kDefaultColumnFamilyName;
                 Rocks.cf_rows := [] |}] _ i handle Hnth).
  - intros i handle Hnth.
    apply (opened_handles_name_families (c0 :: rest) _ i handle Hnth).
Qed.

(** ** What a read and a scan leave behind the out-pointers *)

Lemma read_many_tasks_lengths (d : Rocks.DB) (tasks : list read_task_t)
    (count : nat) :
  forall i cols keys,
    read_many_tasks d tasks i count = Done (cols, keys) ->
    List.length cols = count /\ List.length keys = count.
Proof.
  induction count as [|count IH]; intros i cols keys H; simpl in H.
  - inversion H. split; reflexivity.
  - destruct (at_index tasks i) as [task|]; [|discriminate]. simpl in H.
    destruct (read_many_tasks d tasks (S i) count) as [[cs ks]|] eqn:E;
      [|discriminate].
    simpl in H. inversion H; subst. destruct (IH _ _ _ E). simpl.
    split; congruence.
Qed.

Lemma read_many_tasks_returns (d : Rocks.DB) (tasks : list read_task_t)
    (count : nat) :
  forall i,
    (i + count <= List.length tasks)%nat ->
    exists r, read_many_tasks d tasks i count = Done r.
Proof.
  induction count as [|count IH]; intros i Hle; simpl; [now eexists|].
  destruct (nth_error tasks i) as [task|] eqn:Hnth.
  2:{ apply nth_error_None in Hnth. lia. }
  unfold at_index. rewrite Hnth. simpl.
  destruct (IH (S i)) as [r Hr]; [lia|]. rewrite Hr. simpl. now eexists.
Qed.

Lemma multi_get_length
    (get : nat -> Rocks.ColumnFamilyHandle -> Rocks.Slice
           -> Rocks.Status * Rocks.Slice)
    (cols : list Rocks.ColumnFamilyHandle) :
  forall i keys,
    List.length keys = List.length cols ->
    List.length (snd (Rocks.multi_get get i cols keys)) = List.length cols.
Proof.
  induction cols as [|c cols IH]; intros i [|k keys] H; simpl in *;
    try discriminate; [reflexivity|].
  destruct (get i c k) as [s v].
  specialize (IH (S i) keys).
  destruct (Rocks.multi_get get (S i) cols keys) as [ss vs]. simpl in *.
  f_equal. apply IH. congruence.
Qed.

Lemma fetch_length (vals : list Rocks.Slice) :
  List.length (fst (fetch vals)) = List.length vals.
Proof.
  induction vals as [|v vals IH]; simpl; [reflexivity|].
  destruct (fetch vals) as [lens bytes]. simpl in *.
  destruct (negb _); simpl; congruence.
Qed.

Lemma store_length {A} (arr : list (option A)) :
  forall (i : nat) (x : A) (arr' : list (option A)),
    store arr i x = Done arr' -> List.length arr' = List.length arr.
Proof.
  induction arr as [|a arr IH]; intros [|i] x arr' H; simpl in H;
    try discriminate.
  - now inversion H.
  - destruct (store arr i x) as [rest|] eqn:E; [|discriminate].
    simpl in H. inversion H. simpl. f_equal. exact (IH _ _ _ E).
Qed.

(** The loops of a scan store into the slots and never add or drop one. *)
Lemma scan_fill_slots (len : nat) (rows : Rocks.Rows) :
  forall (i : nat) (slots : scan_slots) (r : nat * scan_slots),
    scan_fill len rows i slots = Done r ->
    List.length (fst (snd r)) = List.length (fst slots) /\
    List.length (snd (snd r)) = List.length (snd slots).
Proof.
  induction rows as [|[k v] rest IH]; intros i slots r H; simpl in H.
  - inversion H. now split.
  - destruct (Nat.eqb i len); [inversion H; now split|].
    destruct (store (fst slots) i (key_of_slice k)) as [keys|] eqn:Ek;
      [|discriminate].
    destruct (store (snd slots) i (to_val_len (List.length v))) as [lens|]
      eqn:El; [|discriminate].
    simpl in H. apply IH in H. simpl in H.
    rewrite (store_length _ _ _ _ Ek), (store_length _ _ _ _ El) in H.
    exact H.
Qed.

Lemma scan_tasks_slots (c_db : ukv_t) (txn : rocks_txn_ptr_t)
    (tasks : list scan_task_t) (n : nat) (options : Rocks.ReadOptions)
    (fuel : nat) :
  forall (i : nat) (slots slots' : scan_slots),
    scan_tasks fuel c_db txn tasks n options i slots = Done slots' ->
    List.length (fst slots') = List.length (fst slots) /\
    List.length (snd slots') = List.length (snd slots).
Proof.
  induction fuel as [|fuel IH]; intros i slots slots' H.
  - simpl in H. destruct (Nat.eqb i n); [|discriminate].
    inversion H. now split.
  - rewrite scan_tasks_turn in H.
    destruct (Nat.eqb i n); [inversion H; now split|].
    destruct (scan_task c_db txn tasks options i slots) as [r|] eqn:E;
      [|discriminate].
    cbn [bind] in H. apply IH in H.
    unfold scan_task in E.
    destruct (at_index tasks i) as [task|]; [|discriminate]. cbn [bind] in E.
    destruct (deref c_db) as [w|]; [|discriminate]. cbn [bind] in E.
    destruct (deref (db w)) as [d|]; [|discriminate]. cbn [bind] in E.
    apply scan_fill_slots in E. destruct H, E. split; congruence.
Qed.

Section Outputs.

Variable ukv_option_read_transparent_k : ukv_options_t.
Variable sizeof_ukv_size_t : nat.

Lemma read_one_outputs_or_error (h : host_t) (c_db : ukv_t)
    (txn : rocks_txn_ptr_t) (tasks : list read_task_t) (n : nat)
    (options : Rocks.ReadOptions) (out out' : read_out)
    (arena arena' : stl_arena_t) (err : ukv_error_t) :
  read_one sizeof_ukv_size_t h c_db txn tasks n options out arena None =
    Done (out', arena', err) ->
  (err = None /\
   exists len vals,
     out' = {| c_found_lengths := Some [len]; c_found_values := Some vals |})
  \/ (err <> None /\ out' = out).
Proof.
  unfold read_one. intros H.
  destruct (at_index tasks 0) as [task|]; [|discriminate]. cbn [bind] in H.
  destruct (deref c_db) as [w|]; [|discriminate]. cbn [bind] in H.
  destruct (deref (db w)) as [d|]; [|discriminate]. cbn [bind] in H.
  unfold make_value in H. destruct (heap h NewValue); [|discriminate].
  cbn [deref bind] in H.
  destruct (match txn with
            | Some t => Rocks.TxnGet (io h 0) options
                          (col_or_default d (r_col task))
                          (to_slice (r_key task)) t d
            | None => Rocks.Get (io h 0) options
                        (col_or_default d (r_col task))
                        (to_slice (r_key task)) d
            end) as [status value].
  assert (Htail :
            (let (arena0, c_error0) :=
               prepare_memory h arena
                 (sizeof_ukv_size_t + List.length value) None in
             if is_set c_error0 then Done (out, arena0, c_error0)
             else
               Done ({| c_found_lengths :=
                          Some [(if Rocks.IsNotFound status
                                 then ukv_val_len_missing_k
                                 else Z.of_nat (List.length value))
                                mod 2 ^ 32];
                        c_found_values := Some value |}, arena0, c_error0))
            = Done (out', arena', err) ->
            (err = None /\
             exists len vals,
               out' = {| c_found_lengths := Some [len];
                         c_found_values := Some vals |})
            \/ (err <> None /\ out' = out)).
  { unfold prepare_memory. intros Ht.
    destruct (heap h (Tape _)); cbn [is_set non_null] in Ht;
      inversion Ht; subst.
    - left. split; [reflexivity|]. eexists _, _. reflexivity.
    - right. split; [discriminate|reflexivity]. }
  destruct (negb (Rocks.IsNotFound status)); [|exact (Htail H)].
  unfold export_error in H.
  destruct (Rocks.ok status); [exact (Htail H)|].
  destruct (Rocks.IsCorruption status), (Rocks.IsIOError status),
    (Rocks.IsInvalidArgument status); inversion H; subst; right;
    (split; [discriminate|reflexivity]).
Qed.

Lemma read_many_outputs_or_error (h : host_t) (c_db : ukv_t)
    (txn : rocks_txn_ptr_t) (tasks : list read_task_t) (n : nat)
    (options : Rocks.ReadOptions) (out out' : read_out)
    (arena arena' : stl_arena_t) (err : ukv_error_t) :
  read_many h c_db txn tasks n options out arena None =
    Done (out', arena', err) ->
  (err = None /\
   exists lens vals,
     out' = {| c_found_lengths := Some lens; c_found_values := Some vals |}
     /\ List.length lens = n)
  \/ (err <> None /\ out' = out).
Proof.
  unfold read_many. intros H.
  destruct (deref c_db) as [w|]; [|discriminate]. cbn [bind] in H.
  destruct (deref (db w)) as [d|]; [|discriminate]. cbn [bind] in H.
  destruct (read_many_tasks d tasks 0 n) as [[cols keys]|] eqn:Et;
    [|discriminate].
  cbn [bind] in H.
  destruct (read_many_tasks_lengths _ _ _ _ _ _ Et) as [Hc Hk].
  assert (Hlen : List.length
                   (snd (match txn with
                         | Some t => Rocks.TxnMultiGet (io h) options cols
                                       keys t d
                         | None => Rocks.MultiGet (io h) options cols keys d
                         end)) = n).
  { destruct txn; unfold Rocks.TxnMultiGet, Rocks.MultiGet;
      (rewrite multi_get_length;
       [exact Hc | exact (eq_trans Hk (eq_sym Hc))]). }
  destruct (match txn with
            | Some t => Rocks.TxnMultiGet (io h) options cols keys t d
            | None => Rocks.MultiGet (io h) options cols keys d
            end) as [statuses vals].
  simpl in Hlen. unfold prepare_memory in H.
  destruct (heap h (Tape _)); cbn [is_set non_null] in H.
  - pose proof (fetch_length vals) as Hf.
    destruct (fetch vals) as [lens bytes]. inversion H; subst.
    left. split; [reflexivity|]. eexists _, _. split; [reflexivity|].
    simpl in Hf. congruence.
  - inversion H; subst. right. split; [discriminate|reflexivity].
Qed.

Lemma ukv_read_outputs_or_error
    (h : host_t) (c_db : ukv_t) (c_txn : ukv_txn_t) (n : nat)
    (tasks : list read_task_t) (c_options : ukv_options_t)
    (out out' : read_out) (c_arena c_arena' : ukv_arena_t)
    (err : ukv_error_t) :
  ukv_read ukv_option_read_transparent_k sizeof_ukv_size_t h c_db c_txn n
    tasks c_options out c_arena None = Done (out', c_arena', err) ->
  (err = None /\
   exists lens vals,
     out' = {| c_found_lengths := Some lens; c_found_values := Some vals |}
     /\ List.length lens = n)
  \/ (err <> None /\ out' = out).
Proof.
  unfold ukv_read. intros H.
  destruct (non_null c_txn && _).
  - inversion H; subst. right. split; [discriminate|reflexivity].
  - unfold cast_arena in H.
    destruct c_arena as [a|];
      [|destruct (heap h NewArena); [|discriminate]];
      cbn [deref bind] in H;
      (destruct (Nat.eqb n 1) eqn:En;
       [ apply Nat.eqb_eq in En; subst n;
         destruct (read_one _ _ _ _ _ _ _ _ _ _) as [[[o a'] e]|] eqn:Er;
           [|discriminate];
         cbn [bind] in H; inversion H; subst;
         destruct (read_one_outputs_or_error _ _ _ _ _ _ _ _ _ _ _ Er)
           as [(He & len & vals & Ho)|Hr]; [left|now right];
         split; [exact He|]; exists [len], vals; now split
       | destruct (read_many _ _ _ _ _ _ _ _ _) as [[[o a'] e]|] eqn:Er;
           [|discriminate];
         cbn [bind] in H; inversion H; subst;
         exact (read_many_outputs_or_error _ _ _ _ _ _ _ _ _ _ _ Er) ]).
Qed.

(** A read of [n] tasks the caller's arrays hold, on an open database,
    returns when the value object and the arena can be allocated. *)
Lemma ukv_read_returns
    (h : host_t) (w : rocks_db_wrapper_t) (d : Rocks.DB) (c_txn : ukv_txn_t)
    (n : nat) (tasks : list read_task_t) (c_options : ukv_options_t)
    (out : read_out) (c_arena : ukv_arena_t) (c_error : ukv_error_t) :
  db w = Some d ->
  (n <= List.length tasks)%nat ->
  heap h NewValue = true ->
  heap h NewArena = true ->
  exists r,
    ukv_read ukv_option_read_transparent_k sizeof_ukv_size_t h (Some w) c_txn
      n tasks c_options out c_arena c_error = Done r.
Proof.
  intros Hd Hn Hv Ha. unfold ukv_read.
  destruct (non_null c_txn && _); [now eexists|].
  assert (Hc : exists a e, cast_arena h c_arena c_error = (Some a, e)).
  { unfold cast_arena. destruct c_arena as [a|]; [now eexists _, _|].
    rewrite Ha. now eexists _, _. }
  destruct Hc as (a & e & Hc). rewrite Hc. cbn [deref bind].
  destruct (Nat.eqb n 1) eqn:En.
  - apply Nat.eqb_eq in En. subst n.
    destruct tasks as [|task rest]; [simpl in Hn; lia|].
    unfold read_one. simpl. rewrite Hd. simpl.
    unfold make_value. rewrite Hv. simpl.
    destruct (match c_txn with
              | Some t => Rocks.TxnGet _ _ _ _ t d
              | None => Rocks.Get _ _ _ _ d
              end) as [status value].
    destruct (if negb (Rocks.IsNotFound status) then _ else _) as [[|] e'];
      [now eexists|].
    destruct (prepare_memory _ _ _ _) as [a' e''].
    destruct (is_set e''); simpl; now eexists.
  - unfold read_many. simpl. rewrite Hd. simpl.
    destruct (read_many_tasks_returns d tasks n 0 Hn) as [[cols keys] Hr].
    rewrite Hr. simpl.
    destruct (match c_txn with
              | Some t => Rocks.TxnMultiGet _ _ _ _ t d
              | None => Rocks.MultiGet _ _ _ _ d
              end) as [statuses vals].
    destruct (prepare_memory _ _ _ _) as [a' e''].
    destruct (is_set e''); [simpl; now eexists|].
    destruct (fetch vals). simpl. now eexists.
Qed.

(** X7: a [ukv_read] of [n] tasks on an open database, inside a
    transaction or not, whatever the storage answers and whether or not
    the tape can be grown, returns in one of two states: the error is set
    and the out-pointers are as they were, or the error is null and both
    out-pointers are set, the lengths one per task. (The value object and
    a missing arena are taken to be allocated.) *)
Theorem read_sets_outputs_or_error
    (h : host_t) (w : rocks_db_wrapper_t) (d : Rocks.DB) (c_txn : ukv_txn_t)
    (n : nat) (tasks : list read_task_t) (c_options : ukv_options_t)
    (out : read_out) (c_arena : ukv_arena_t) :
  db w = Some d ->
  (n <= List.length tasks)%nat ->
  heap h NewValue = true ->
  heap h NewArena = true ->
  exists out' c_arena' err,
    ukv_read ukv_option_read_transparent_k sizeof_ukv_size_t h (Some w) c_txn
      n tasks c_options out c_arena None = Done (out', c_arena', err) /\
    ((err = None /\
      exists lens vals,
        out' = {| c_found_lengths := Some lens;
                  c_found_values := Some vals |}
        /\ List.length lens = n)
     \/ (err <> None /\ out' = out)).
Proof.
  intros Hd Hn Hv Ha.
  destruct (ukv_read_returns h w d c_txn n tasks c_options out c_arena None
              Hd Hn Hv Ha) as [[[out' c_arena'] err] Hr].
  exists out', c_arena', err. split; [exact Hr|].
  exact (ukv_read_outputs_or_error _ _ _ _ _ _ _ _ _ _ _ Hr).
Qed.

(** X8: a [ukv_scan] that returns has set the error and left the
    out-pointers as they were, or has set no error and both out-pointers,
    each to as many slots as the request has tasks. *)
Theorem scan_sets_outputs_or_error
    (h : host_t) (c_db : ukv_t) (c_txn : ukv_txn_t) (n : nat)
    (tasks : list scan_task_t) (c_options : ukv_options_t)
    (out out' : scan_out) (c_arena c_arena' : ukv_arena_t)
    (err : ukv_error_t) :
  ukv_scan ukv_option_read_transparent_k h c_db c_txn n tasks c_options out
    c_arena None = Done (out', c_arena', err) ->
  (err = None /\
   exists keys lens,
     out' = {| c_found_keys := Some keys; c_found_lens := Some lens |} /\
     List.length keys = n /\ List.length lens = n)
  \/ (err <> None /\ out' = out).
Proof.
  unfold ukv_scan. intros H.
  destruct (non_null c_txn && _).
  { inversion H; subst. right. split; [discriminate|reflexivity]. }
  unfold cast_arena in H.
  destruct c_arena as [a|];
    [|destruct (heap h NewArena); [|discriminate]];
    cbn [deref bind is_set non_null] in H;
    unfold prepare_memory in H;
    (destruct (heap h (Tape _)); cbn [is_set non_null] in H;
     [|inversion H; subst; right; split; [discriminate|reflexivity]]);
    (destruct (scan_tasks _ _ _ _ _ _ _ _) as [slots|] eqn:E;
       [|discriminate]);
    cbn [bind] in H; inversion H; subst;
    apply scan_tasks_slots in E; cbn [fst snd] in E;
    rewrite !repeat_length in E; destruct E;
    left; (split; [reflexivity|]); eexists _, _;
    (split; [reflexivity|]); split; assumption.
Qed.

End Outputs.

(** ** Transactions and batches *)

Lemma update_family_length (f : nat) (g : Rocks.Rows -> Rocks.Rows)
    (fams : list Rocks.ColumnFamilyData) :
  List.length (Rocks.update_family f g fams) = List.length fams.
Proof.
  revert f; induction fams as [|c rest IH]; intros [|f]; simpl;
    try reflexivity.
  now rewrite IH.
Qed.

(** A batch whose tasks all name families of the database is applied. *)
Lemma apply_tasks_defined (d : Rocks.DB) (tasks : list write_task_t) :
  Forall (names_family d) tasks ->
  forall fams,
    List.length fams = List.length (Rocks.families d) ->
    exists fams',
      apply_tasks d fams tasks = Some fams' /\
      List.length fams' = List.length (Rocks.families d).
Proof.
  induction 1 as [|task rest Hn _ IH]; intros fams Hlen; simpl.
  - now exists fams.
  - unfold names_family, Rocks.family_of in Hn.
    destruct (Rocks.resolve d (col_or_default d (w_col task))) as [f|];
      [|congruence].
    destruct (nth_error fams f) eqn:E.
    + apply IH. now rewrite update_family_length.
    + apply nth_error_None in E. rewrite Hlen in E.
      apply nth_error_None in E. congruence.
Qed.

Lemma apply_tasks_app (d : Rocks.DB) (front back : list write_task_t) :
  forall fams,
    apply_tasks d fams (front ++ back) =
    match apply_tasks d fams front with
    | Some mid => apply_tasks d mid back
    | None => None
    end.
Proof.
  induction front as [|task front IH]; intros fams; simpl; [reflexivity|].
  destruct (Rocks.resolve d (col_or_default d (w_col task))) as [f|];
    [|reflexivity].
  destruct (nth_error fams f); [apply IH|reflexivity].
Qed.

(** After a batch, the family its last task names holds the rows the task
    asks for. *)
Lemma apply_tasks_last (d : Rocks.DB) (front : list write_task_t)
    (task : write_task_t) (fams fams' : list Rocks.ColumnFamilyData) :
  apply_tasks d fams (front ++ [task]) = Some fams' ->
  exists c,
    Rocks.family_of fams' d (col_or_default d (w_col task)) =
    Some {| Rocks.cf_name := Rocks.cf_name c;
            Rocks.cf_rows := task_rows task (Rocks.cf_rows c) |}.
Proof.
  rewrite apply_tasks_app.
  destruct (apply_tasks d fams front) as [mid|]; [|discriminate].
  simpl. unfold Rocks.family_of.
  destruct (Rocks.resolve d (col_or_default d (w_col task))) as [f|];
    [|discriminate].
  destruct (nth_error mid f) as [c|] eqn:E; [|discriminate].
  intros H. inversion H. exists c. now apply nth_error_update_family.
Qed.

(** An operation on a handle that names a family joins the batch of the
    transaction. *)
Lemma txn_record_accepted (h : host_t) (d : Rocks.DB) (i : nat)
    (op : Rocks.BatchOp) (t : Rocks.Transaction) :
  storage_serves h ->
  Rocks.family_of (Rocks.families d) d (Rocks.op_handle op) <> None ->
  Rocks.txn_record (io h i) op t d =
  (Rocks.kOk, {| Rocks.txn_snapshot := Rocks.txn_snapshot t;
                 Rocks.txn_batch := (Rocks.txn_batch t ++ [op])%list |}).
Proof.
  intros Hio Hn. unfold Rocks.txn_record. rewrite Hio. simpl.
  destruct (Rocks.family_of _ d _); [reflexivity|congruence].
Qed.

(** The transactional loop of [write_many] records the operations the
    batch loop collects, when the storage accepts each of them. *)
Lemma write_many_txn_records (h : host_t) (w : rocks_db_wrapper_t)
    (d : Rocks.DB) (tasks : list write_task_t) (count : nat) :
  storage_serves h ->
  db w = Some d ->
  forall (i : nat) (t : Rocks.Transaction) (acc : Rocks.WriteBatch),
    (i + count <= List.length tasks)%nat ->
    Forall (names_family d) (firstn count (skipn i tasks)) ->
    exists batch,
      write_many_batch d tasks i count acc = Done (acc ++ batch)%list /\
      write_many_txn h (Some w) tasks i count t =
        Done {| Rocks.txn_snapshot := Rocks.txn_snapshot t;
                Rocks.txn_batch := (Rocks.txn_batch t ++ batch)%list |}.
Proof.
  intros Hio Hd.
  induction count as [|count IH]; intros i t acc Hle Hall; simpl.
  - exists []. rewrite !app_nil_r. split; [reflexivity|]. now destruct t.
  - destruct (nth_error tasks i) as [task|] eqn:Hnth.
    2:{ apply nth_error_None in Hnth. lia. }
    unfold at_index; rewrite Hnth; simpl. rewrite Hd; simpl.
    rewrite (skipn_nth_error _ _ _ Hnth) in Hall. simpl firstn in Hall.
    inversion Hall as [|? ? Hn Hrest]; subst.
    set (op := if is_deleted task
               then Rocks.BDelete (col_or_default d (w_col task))
                      (to_slice (w_key task))
               else Rocks.BPut (col_or_default d (w_col task))
                      (to_slice (w_key task)) (view task)).
    assert (Ht : snd (if is_deleted task
                      then Rocks.TxnDelete (io h i)
                             (col_or_default d (w_col task))
                             (to_slice (w_key task)) t d
                      else Rocks.TxnPut (io h i)
                             (col_or_default d (w_col task))
                             (to_slice (w_key task)) (view task) t d)
                 = {| Rocks.txn_snapshot := Rocks.txn_snapshot t;
                      Rocks.txn_batch := (Rocks.txn_batch t ++ [op])%list |}).
    { unfold op, Rocks.TxnDelete, Rocks.TxnPut.
      destruct (is_deleted task);
        (rewrite txn_record_accepted; [reflexivity|exact Hio|exact Hn]). }
    rewrite Ht.
    destruct (IH (S i)
                {| Rocks.txn_snapshot := Rocks.txn_snapshot t;
                   Rocks.txn_batch := (Rocks.txn_batch t ++ [op])%list |}
                (acc ++ [op])%list) as (batch & Hb & Htx); [lia|exact Hrest|].
    exists (op :: batch). split.
    + fold op. rewrite Hb, <- app_assoc. reflexivity.
    + rewrite Htx. simpl. rewrite <- app_assoc. reflexivity.
Qed.

Lemma read_many_tasks_handles (d d' : Rocks.DB) (tasks : list read_task_t)
    (count : nat) :
  forall i, read_many_tasks d' tasks i count = read_many_tasks d tasks i count.
Proof.
  induction count as [|count IH]; intros i; simpl; [reflexivity|].
  destruct (at_index tasks i); simpl; [|reflexivity].
  now rewrite IH.
Qed.

Lemma batch_rows_handles (d : Rocks.DB)
    (fams : list Rocks.ColumnFamilyData) (f : nat)
    (batch : Rocks.WriteBatch) :
  forall rows,
    Rocks.batch_rows (Rocks.with_families d fams) f batch rows =
    Rocks.batch_rows d f batch rows.
Proof.
  induction batch as [|op batch IH]; intros rows; simpl; [reflexivity|].
  now rewrite IH.
Qed.

(** What a transaction sees of a family depends on the database only
    through its handle table, once the read options carry a snapshot. *)
Lemma TxnGet_snapshot (inj : Rocks.Status)
    (snap : list Rocks.ColumnFamilyData) (cache : bool)
    (hc : Rocks.ColumnFamilyHandle) (k : Rocks.Slice)
    (t : Rocks.Transaction) (d : Rocks.DB)
    (fams : list Rocks.ColumnFamilyData) :
  Rocks.TxnGet inj {| Rocks.snapshot := Some snap; Rocks.fill_cache := cache |}
    hc k t (Rocks.with_families d fams) =
  Rocks.TxnGet inj {| Rocks.snapshot := Some snap; Rocks.fill_cache := cache |}
    hc k t d.
Proof.
  unfold Rocks.TxnGet, Rocks.txn_view.
  change (Rocks.resolve (Rocks.with_families d fams) hc)
    with (Rocks.resolve d hc).
  destruct (Rocks.resolve d hc) as [f|]; [|reflexivity].
  unfold Rocks.read_view. cbn [Rocks.snapshot].
  destruct (nth_error snap f); [|reflexivity].
  now rewrite batch_rows_handles.
Qed.

Lemma multi_get_pointwise
    (get get' : nat -> Rocks.ColumnFamilyHandle -> Rocks.Slice
                -> Rocks.Status * Rocks.Slice)
    (cols : list Rocks.ColumnFamilyHandle) :
  (forall i hc k, get i hc k = get' i hc k) ->
  forall i keys,
    Rocks.multi_get get i cols keys = Rocks.multi_get get' i cols keys.
Proof.
  intros Hget. induction cols as [|c cols IH]; intros i [|k keys]; simpl;
    try reflexivity.
  now rewrite Hget, IH.
Qed.

Section Transactions.

Variable ukv_option_write_flush_k : ukv_options_t.
Variable ukv_option_read_transparent_k : ukv_options_t.
Variable sizeof_ukv_size_t : nat.

(** A write outside a transaction whose tasks all name families of the
    database, when the storage accepts it: the database it leaves. *)
Lemma ukv_write_outside_transaction (h : host_t) (w : rocks_db_wrapper_t)
    (d : Rocks.DB) (n : nat) (tasks : list write_task_t)
    (write_options : ukv_options_t) :
  storage_serves h ->
  db w = Some d ->
  (n <= List.length tasks)%nat ->
  Forall (names_family d) (firstn n tasks) ->
  exists fams,
    apply_tasks d (Rocks.families d) (firstn n tasks) = Some fams /\
    ukv_write ukv_option_write_flush_k h (Some w) None n tasks write_options
      None = Done (Some (with_db w (Rocks.with_families d fams)), None, None).
Proof.
  intros Hio Hd Hn Hall.
  destruct (apply_tasks_defined d _ Hall (Rocks.families d) eq_refl)
    as (fams & Hfams & _).
  exists fams. split; [exact Hfams|].
  assert (Hwrite : forall batch wo,
            (forall fams0, Rocks.apply_batch d fams0 batch
                           = apply_tasks d fams0 (firstn n tasks)) ->
            Rocks.Write (io h 0) wo batch d
            = (Rocks.kOk, Rocks.with_families d fams)).
  { intros batch wo Happ. unfold Rocks.Write. rewrite Hio. simpl.
    now rewrite Happ, Hfams. }
  unfold ukv_write. destruct (Nat.eqb n 1) eqn:En.
  - apply Nat.eqb_eq in En. subst n.
    destruct tasks as [|task rest]; [simpl in Hn; lia|].
    unfold write_one. simpl. rewrite Hd. simpl.
    unfold Rocks.SingleDelete, Rocks.Put.
    destruct (is_deleted task) eqn:Hdel;
      (rewrite Hwrite; [reflexivity|]; intros fams0;
       apply apply_op_task; [reflexivity| |reflexivity];
       unfold task_rows; now rewrite Hdel).
  - unfold write_many. simpl. rewrite Hd. simpl.
    destruct (write_many_batch_applies d tasks n 0 [] Hn)
      as (batch & Hb & Happ).
    rewrite Hb. simpl. now rewrite (Hwrite batch _ Happ).
Qed.

(** A write inside a transaction whose tasks all name families of the
    database, when the storage accepts it: the operations join the
    transaction's batch, and they are those of the tasks. *)
Lemma ukv_write_inside_transaction (h : host_t) (w : rocks_db_wrapper_t)
    (d : Rocks.DB) (t : Rocks.Transaction) (n : nat)
    (tasks : list write_task_t) (write_options : ukv_options_t) :
  storage_serves h ->
  db w = Some d ->
  (n <= List.length tasks)%nat ->
  Forall (names_family d) (firstn n tasks) ->
  exists batch,
    ukv_write ukv_option_write_flush_k h (Some w) (Some t) n tasks
      write_options None =
    Done (Some w,
          Some {| Rocks.txn_snapshot := Rocks.txn_snapshot t;
                  Rocks.txn_batch := (Rocks.txn_batch t ++ batch)%list |},
          None) /\
    forall fams,
      Rocks.apply_batch d fams batch = apply_tasks d fams (firstn n tasks).
Proof.
  intros Hio Hd Hn Hall.
  unfold ukv_write. destruct (Nat.eqb n 1) eqn:En.
  - apply Nat.eqb_eq in En. subst n.
    destruct tasks as [|task rest]; [simpl in Hn; lia|].
    simpl in Hall. inversion Hall as [|? ? Hname _]; subst.
    unfold write_one. simpl. rewrite Hd. simpl.
    unfold Rocks.TxnSingleDelete, Rocks.TxnPut.
    destruct (is_deleted task) eqn:Hdel;
      (rewrite txn_record_accepted; [|exact Hio|exact Hname];
       eexists [_]; split; [reflexivity|]; intros fams;
       apply (apply_op_task d fams task [] []); [reflexivity| |reflexivity];
       unfold task_rows; now rewrite Hdel).
  - unfold write_many. simpl.
    destruct (write_many_txn_records h w d tasks n Hio Hd 0 t [] Hn Hall)
      as (batch & Hb & Htx).
    destruct (write_many_batch_applies d tasks n 0 [] Hn)
      as (batch' & Hb' & Happ).
    rewrite Hb in Hb'. inversion Hb' as [Heq]. subst batch'.
    exists batch. rewrite Htx. split; [reflexivity|exact Happ].
Qed.

(** A write outside a transaction leaves the handle table as it was. *)
Lemma write_outside_keeps_handles (h : host_t) (w : rocks_db_wrapper_t)
    (d : Rocks.DB) (n : nat) (tasks : list write_task_t)
    (write_options : ukv_options_t) :
  db w = Some d ->
  (n <= List.length tasks)%nat ->
  exists fams err,
    ukv_write ukv_option_write_flush_k h (Some w) None n tasks write_options
      None = Done (Some (with_db w (Rocks.with_families d fams)), None, err).
Proof.
  intros Hd Hn.
  assert (Hfinish : forall batch wo,
            exists fams err,
              (let (status, d0) := Rocks.Write (io h 0) wo batch d in
               Done (Some (with_db w d0), @None Rocks.Transaction,
                     snd (export_error status None)))
              = Done (Some (with_db w (Rocks.with_families d fams)), None,
                      err)).
  { intros batch wo.
    destruct (Write_all_or_nothing (io h 0) wo batch d)
      as [(fams & _ & HW)|(status & _ & HW)]; rewrite HW.
    - now exists fams, None.
    - exists (Rocks.families d), (snd (export_error status None)).
      now destruct d. }
  unfold ukv_write. destruct (Nat.eqb n 1) eqn:E.
  - apply Nat.eqb_eq in E; subst n.
    destruct tasks as [|task rest]; [simpl in Hn; lia|].
    unfold write_one; simpl. rewrite Hd; simpl.
    destruct (is_deleted task); apply Hfinish.
  - unfold write_many; simpl. rewrite Hd; simpl.
    destruct (write_many_batch_applies d tasks n 0 [] Hn)
      as (batch & Hrun & _).
    rewrite Hrun; simpl. apply Hfinish.
Qed.

(** A read inside a transaction that took a snapshot sees the database
    only through the handle table. *)
Lemma ukv_read_in_snapshot (h : host_t) (w : rocks_db_wrapper_t)
    (d : Rocks.DB) (fams snap : list Rocks.ColumnFamilyData)
    (batch : Rocks.WriteBatch) (n : nat) (tasks : list read_task_t)
    (read_options : ukv_options_t) (out : read_out) (c_arena : ukv_arena_t)
    (c_error : ukv_error_t) :
  db w = Some d ->
  ukv_read ukv_option_read_transparent_k sizeof_ukv_size_t h
    (Some (with_db w (Rocks.with_families d fams)))
    (Some {| Rocks.txn_snapshot := Some snap; Rocks.txn_batch := batch |})
    n tasks read_options out c_arena c_error =
  ukv_read ukv_option_read_transparent_k sizeof_ukv_size_t h (Some w)
    (Some {| Rocks.txn_snapshot := Some snap; Rocks.txn_batch := batch |})
    n tasks read_options out c_arena c_error.
Proof.
  intros Hd. unfold ukv_read.
  destruct (non_null _ && _); [reflexivity|].
  destruct (cast_arena h c_arena c_error) as [[a|] e]; [|reflexivity].
  cbn [deref bind].
  destruct (Nat.eqb n 1).
  - unfold read_one. simpl. rewrite Hd. simpl.
    destruct (at_index tasks 0) as [task|]; [|reflexivity]. simpl.
    destruct (make_value h e) as [[v|] e']; [|reflexivity]. simpl.
    change (col_or_default (Rocks.with_families d fams) (r_col task))
      with (col_or_default d (r_col task)).
    now rewrite TxnGet_snapshot.
  - unfold read_many. simpl. rewrite Hd. simpl.
    rewrite (read_many_tasks_handles d (Rocks.with_families d fams)).
    destruct (read_many_tasks d tasks 0 n) as [[cols keys]|]; [|reflexivity].
    simpl. unfold Rocks.TxnMultiGet.
    rewrite (multi_get_pointwise _
               (fun i hc k =>
                  Rocks.TxnGet (io h i)
                    {| Rocks.snapshot := Some snap;
                       Rocks.fill_cache := true |} hc k
                    {| Rocks.txn_snapshot := Some snap;
                       Rocks.txn_batch := batch |} d));
      [reflexivity|].
    intros i hc k. apply TxnGet_snapshot.
Qed.

(** A single read inside a transaction, with the transparent option, on a
    handle whose family the transaction sees, when the storage and the
    allocator serve it. *)
Lemma ukv_read_single_in_transaction (h : host_t) (w : rocks_db_wrapper_t)
    (d : Rocks.DB) (t : Rocks.Transaction) (rows : Rocks.Rows)
    (col : ukv_collection_t) (key : ukv_key_t) (c_options : ukv_options_t)
    (out : read_out) (c_arena : ukv_arena_t) :
  serves h ->
  db w = Some d ->
  Z.land c_options ukv_option_read_transparent_k <> 0 ->
  Rocks.txn_view
    {| Rocks.snapshot := Rocks.GetSnapshot t; Rocks.fill_cache := true |}
    t d (col_or_default d col) = Some rows ->
  exists arena,
    ukv_read ukv_option_read_transparent_k sizeof_ukv_size_t h (Some w)
      (Some t) 1 [{| r_col := col; r_key := key |}] c_options out c_arena
      None =
    Done
      (match Rocks.rows_get (to_slice key) rows with
       | Some v =>
           {| c_found_lengths := Some [Z.of_nat (List.length v) mod 2 ^ 32];
              c_found_values := Some v |}
       | None =>
           {| c_found_lengths := Some [ukv_val_len_missing_k];
              c_found_values := Some [] |}
       end, Some arena, None).
Proof.
  intros [Hio Hheap] Hd Hbit Hview.
  unfold ukv_read. apply Z.eqb_neq in Hbit. rewrite Hbit. simpl.
  assert (Ha : exists a, cast_arena h c_arena None = (Some a, None)).
  { unfold cast_arena. destruct c_arena as [a|]; [now exists a|].
    rewrite Hheap. now eexists. }
  destruct Ha as [a Ha]; rewrite Ha; simpl.
  unfold read_one; simpl. rewrite Hd; simpl.
  unfold make_value; rewrite Hheap; simpl.
  unfold Rocks.TxnGet; rewrite Hio; simpl. rewrite Hview.
  unfold prepare_memory.
  destruct (Rocks.rows_get (to_slice key) rows) as [v|]; simpl;
    rewrite Hheap; simpl; eexists; reflexivity.
Qed.

(** X9: a batch written inside a transaction and committed leaves the
    database the same batch leaves when written outside a transaction:
    [ukv_txn_begin], [ukv_write] in the transaction and [ukv_txn_commit]
    complete with a null error, the write alone does not change the
    database, and the commit gives the database of the direct [ukv_write],
    every entry of the batch applied in order. The storage accepts the
    calls and every task names a collection of the database. *)
Theorem committed_transaction_is_a_batch_write
    (h : host_t) (w : rocks_db_wrapper_t) (d : Rocks.DB) (n : nat)
    (tasks : list write_task_t) (sequence_number : nat)
    (begin_options write_options commit_options : ukv_options_t)
    (c_txn : ukv_txn_t) :
  storage_serves h ->
  db w = Some d ->
  (n <= List.length tasks)%nat ->
  Forall (names_family d) (firstn n tasks) ->
  exists t t' t'' d',
    ukv_txn_begin (Some w) sequence_number begin_options c_txn None =
      Done (Some t, None) /\
    ukv_write ukv_option_write_flush_k h (Some w) (Some t) n tasks
      write_options None = Done (Some w, Some t', None) /\
    ukv_txn_commit h d (Some t') commit_options None = Done (t'', d', None) /\
    ukv_write ukv_option_write_flush_k h (Some w) None n tasks write_options
      None = Done (Some (with_db w d'), None, None) /\
    apply_tasks d (Rocks.families d) (firstn n tasks) =
      Some (Rocks.families d').
Proof.
  intros Hio Hd Hn Hall.
  destruct (ukv_write_outside_transaction h w d n tasks write_options
              Hio Hd Hn Hall) as (fams & Hfams & Hout).
  set (t := {| Rocks.txn_snapshot := Some (Rocks.families d);
               Rocks.txn_batch := [] |}).
  destruct (ukv_write_inside_transaction h w d t n tasks write_options
              Hio Hd Hn Hall) as (batch & Hin & Happ).
  exists t. eexists _, _, (Rocks.with_families d fams).
  split; [|split; [exact Hin|split; [|split; [exact Hout|exact Hfams]]]].
  - unfold ukv_txn_begin. simpl. now rewrite Hd.
  - unfold ukv_txn_commit, Rocks.Commit, Rocks.Write. simpl.
    rewrite Hio. simpl. rewrite Happ, Hfams. reflexivity.
Qed.

(** X10: a transaction reads its own uncommitted write, and a read outside
    the transaction does not: after [ukv_txn_begin] and a single put in the
    transaction, a single transparent read of the key in the transaction
    shows the value written, and the same read outside the transaction
    shows what the collection held before. *)
Theorem transaction_reads_its_own_write
    (h1 h2 : host_t) (w : rocks_db_wrapper_t) (d : Rocks.DB)
    (c : Rocks.ColumnFamilyData) (task : write_task_t)
    (sequence_number : nat)
    (begin_options write_options read_options : ukv_options_t)
    (c_txn : ukv_txn_t) (out : read_out) (c_arena : ukv_arena_t) :
  storage_serves h1 -> serves h2 ->
  db w = Some d ->
  Rocks.family_of (Rocks.families d) d (col_or_default d (w_col task))
    = Some c ->
  is_deleted task = false ->
  Z.of_nat (w_length task) < 2 ^ 32 ->
  Z.land read_options ukv_option_read_transparent_k <> 0 ->
  exists t t' arena arena',
    ukv_txn_begin (Some w) sequence_number begin_options c_txn None =
      Done (Some t, None) /\
    ukv_write ukv_option_write_flush_k h1 (Some w) (Some t) 1 [task]
      write_options None = Done (Some w, Some t', None) /\
    ukv_read ukv_option_read_transparent_k sizeof_ukv_size_t h2 (Some w)
      (Some t') 1 [get_task (w_col task) (w_key task)] read_options out
      c_arena None =
    Done ({| c_found_lengths := Some [Z.of_nat (List.length (view task))];
             c_found_values := Some (view task) |}, Some arena, None) /\
    ukv_read ukv_option_read_transparent_k sizeof_ukv_size_t h2 (Some w)
      None 1 [get_task (w_col task) (w_key task)] read_options out c_arena
      None =
    Done (match Rocks.rows_get (to_slice (w_key task)) (Rocks.cf_rows c) with
          | Some v =>
              {| c_found_lengths := Some [Z.of_nat (List.length v) mod 2 ^ 32];
                 c_found_values := Some v |}
          | None =>
              {| c_found_lengths := Some [ukv_val_len_missing_k];
                 c_found_values := Some [] |}
          end, Some arena', None).
Proof.
  intros Hs1 Hs2 Hd Hc Hdel Hlen Hbit.
  set (t := {| Rocks.txn_snapshot := Some (Rocks.families d);
               Rocks.txn_batch := [] |}).
  set (op := Rocks.BPut (col_or_default d (w_col task))
               (to_slice (w_key task)) (view task)).
  set (t' := {| Rocks.txn_snapshot := Some (Rocks.families d);
                Rocks.txn_batch := [op] |}).
  destruct (family_of_resolve _ _ _ _ Hc) as (f & Hr & Hnth).
  assert (Hview : Rocks.txn_view
                    {| Rocks.snapshot := Rocks.GetSnapshot t';
                       Rocks.fill_cache := true |}
                    t' d (col_or_default d (w_col task))
                  = Some (Rocks.rows_put (to_slice (w_key task)) (view task)
                            (Rocks.cf_rows c))).
  { unfold Rocks.txn_view. rewrite Hr.
    unfold Rocks.read_view, Rocks.GetSnapshot, t'.
    cbn [Rocks.snapshot Rocks.txn_snapshot Rocks.txn_batch]. rewrite Hnth.
    unfold op. cbn [Rocks.batch_rows Rocks.op_handle Rocks.op_rows].
    rewrite Hr, Nat.eqb_refl. reflexivity. }
  destruct (ukv_read_single_in_transaction h2 w d t' _ (w_col task)
              (w_key task) read_options out c_arena Hs2 Hd Hbit Hview)
    as [arena Hread].
  destruct (ukv_read_single ukv_option_read_transparent_k sizeof_ukv_size_t
              h2 w d c (w_col task) (w_key task) read_options out c_arena
              Hs2 Hd Hc) as [arena' Hread'].
  exists t, t', arena, arena'. split; [|split; [|split]].
  - unfold ukv_txn_begin. simpl. now rewrite Hd.
  - unfold ukv_write, write_one. simpl. rewrite Hd. simpl. rewrite Hdel.
    unfold Rocks.TxnPut.
    rewrite txn_record_accepted; [reflexivity|exact Hs1|].
    simpl. congruence.
  - unfold get_task. rewrite Hread, rows_get_put_same.
    rewrite Z.mod_small; [reflexivity|].
    pose proof (view_length task). lia.
  - exact Hread'.
Qed.

(** X11: the reads of a transaction are served from the snapshot taken
    when it began: a [ukv_write] outside the transaction, made after
    [ukv_txn_begin] and accepted by the storage or not, changes the result
    of no [ukv_read] made in the transaction, whatever the transaction has
    written itself by then. *)
Theorem transaction_reads_its_snapshot
    (h1 h2 : host_t) (w : rocks_db_wrapper_t) (d : Rocks.DB) (m : nat)
    (writes : list write_task_t) (sequence_number : nat)
    (begin_options write_options : ukv_options_t) (c_txn : ukv_txn_t) :
  db w = Some d ->
  (m <= List.length writes)%nat ->
  exists t w' err,
    ukv_txn_begin (Some w) sequence_number begin_options c_txn None =
      Done (Some t, None) /\
    ukv_write ukv_option_write_flush_k h1 (Some w) None m writes
      write_options None = Done (Some w', None, err) /\
    forall batch n reads read_options out c_arena c_error,
      ukv_read ukv_option_read_transparent_k sizeof_ukv_size_t h2 (Some w')
        (Some {| Rocks.txn_snapshot := Rocks.txn_snapshot t;
                 Rocks.txn_batch := batch |})
        n reads read_options out c_arena c_error =
      ukv_read ukv_option_read_transparent_k sizeof_ukv_size_t h2 (Some w)
        (Some {| Rocks.txn_snapshot := Rocks.txn_snapshot t;
                 Rocks.txn_batch := batch |})
        n reads read_options out c_arena c_error.
Proof.
  intros Hd Hm.
  destruct (write_outside_keeps_handles h1 w d m writes write_options Hd Hm)
    as (fams & err & Hw).
  exists {| Rocks.txn_snapshot := Some (Rocks.families d);
            Rocks.txn_batch := [] |}.
  eexists _, err. split; [|split; [exact Hw|]].
  - unfold ukv_txn_begin. simpl. rewrite Hd. reflexivity.
  - intros. now apply ukv_read_in_snapshot.
Qed.

(** X12: the last entry of a batch decides what its key holds: after a
    [ukv_write] outside a transaction whose last task puts a value, a
    single read of that task's key shows the value, whatever the earlier
    tasks of the batch wrote under the key. *)
Theorem last_entry_of_a_batch_wins
    (h1 h2 : host_t) (w : rocks_db_wrapper_t) (d : Rocks.DB)
    (front : list write_task_t) (task : write_task_t)
    (write_options read_options : ukv_options_t) (out : read_out)
    (c_arena : ukv_arena_t) :
  storage_serves h1 -> serves h2 ->
  db w = Some d ->
  Forall (names_family d) (front ++ [task]) ->
  is_deleted task = false ->
  Z.of_nat (w_length task) < 2 ^ 32 ->
  exists w' arena,
    ukv_write ukv_option_write_flush_k h1 (Some w) None
      (List.length (front ++ [task])) (front ++ [task]) write_options None =
      Done (Some w', None, None) /\
    ukv_read ukv_option_read_transparent_k sizeof_ukv_size_t h2 (Some w')
      None 1 [get_task (w_col task) (w_key task)] read_options out c_arena
      None =
    Done ({| c_found_lengths := Some [Z.of_nat (List.length (view task))];
             c_found_values := Some (view task) |}, Some arena, None).
Proof.
  intros Hs1 Hs2 Hd Hall Hdel Hlen.
  rewrite <- (firstn_all (front ++ [task])) in Hall.
  destruct (ukv_write_outside_transaction h1 w d
              (List.length (front ++ [task])) (front ++ [task])
              write_options Hs1 Hd (le_n _) Hall) as (fams & Hfams & Hw).
  rewrite firstn_all in Hfams.
  destruct (apply_tasks_last d front task _ _ Hfams) as (c & Hc).
  destruct (ukv_read_single ukv_option_read_transparent_k sizeof_ukv_size_t
              h2 (with_db w (Rocks.with_families d fams))
              (Rocks.with_families d fams) _ (w_col task) (w_key task)
              read_options out c_arena Hs2 eq_refl Hc) as [arena Hread].
  exists (with_db w (Rocks.with_families d fams)), arena.
  split; [exact Hw|].
  unfold get_task. rewrite Hread. simpl.
  unfold task_rows. rewrite Hdel, rows_get_put_same.
  rewrite Z.mod_small; [reflexivity|].
  pose proof (view_length task). lia.
Qed.

End Transactions.

(** ** A key that was never written *)

Lemma ukv_open_opened (ho : host_t) (c_config : option string)
    (c_db : ukv_t) (c_error : ukv_error_t) (w0 : rocks_db_wrapper_t)
    (d0 : Rocks.DB) :
  fst (ukv_open ho c_config c_db c_error) = Some w0 ->
  db w0 = Some d0 ->
  Rocks.families d0 = stored_families ho /\
  Rocks.handles d0 =
    (1%nat, 0%nat)
    :: Rocks.open_handles 2 0 (map Rocks.cf_name (stored_families ho)) /\
  columns w0 =
    map fst (Rocks.open_handles 2 0 (map Rocks.cf_name (stored_families ho))).
Proof.
  unfold ukv_open, Rocks.Open, Rocks.LoadLatestOptions, stored_families.
  destruct (Rocks.ok (io ho 0)).
  - destruct (disk ho) as [|c0 rest]; cbn [map];
      (destruct (list_eq_dec string_dec _ _) as [_|Hne];
         [|exfalso; apply Hne; reflexivity]);
      cbn [fst]; intros Hw Hd; inversion Hw; subst w0; cbn [db] in Hd;
      inversion Hd; subst d0; repeat split; reflexivity.
  - cbn [fst]. intros Hw Hd. inversion Hw; subst w0. discriminate.
Qed.

(** On a database whose handle table starts with the handle of the default
    family, the family the backend writes to and reads from is the one
    the collection argument stands for. *)
Lemma col_or_default_family (d : Rocks.DB)
    (hs : list (Rocks.ColumnFamilyHandle * nat)) (col : ukv_collection_t) :
  Rocks.handles d = (1%nat, 0%nat) :: hs ->
  Rocks.resolve d (col_or_default d col) = collection_family d col.
Proof.
  intros Hh. unfold col_or_default, collection_family.
  unfold ukv_default_collection_k.
  destruct (Nat.eqb col 0); [|reflexivity].
  unfold Rocks.resolve, Rocks.DefaultColumnFamily. rewrite Hh. reflexivity.
Qed.

Lemma collection_family_handles (d d' : Rocks.DB) (col : ukv_collection_t) :
  Rocks.handles d' = Rocks.handles d ->
  collection_family d' col = collection_family d col.
Proof.
  intros Hh. unfold collection_family, Rocks.resolve. now rewrite Hh.
Qed.

Lemma task_rows_other (task : write_task_t) (k : Rocks.Slice)
    (rows : Rocks.Rows) :
  Rocks.Compare k (to_slice (w_key task)) <> Eq ->
  Rocks.rows_get k (task_rows task rows) = Rocks.rows_get k rows.
Proof.
  intros H. unfold task_rows. destruct (is_deleted task).
  - now apply rows_get_delete_other.
  - now apply rows_get_put_other.
Qed.

(** A batch none of whose tasks is on the key [k] of the family [f]
    leaves the key without an entry there. *)
Lemma apply_tasks_keeps_absent (d : Rocks.DB) (f : nat) (k : Rocks.Slice)
    (tasks : list write_task_t) :
  Forall (fun task =>
            Rocks.resolve d (col_or_default d (w_col task)) <> Some f \/
            Rocks.Compare k (to_slice (w_key task)) <> Eq) tasks ->
  forall fams fams' c,
    apply_tasks d fams tasks = Some fams' ->
    nth_error fams f = Some c ->
    Rocks.rows_get k (Rocks.cf_rows c) = None ->
    exists c',
      nth_error fams' f = Some c' /\
      Rocks.rows_get k (Rocks.cf_rows c') = None.
Proof.
  induction 1 as [|task rest Hother _ IH]; intros fams fams' c Happ Hc Hk;
    simpl in Happ.
  - inversion Happ; subst. now exists c.
  - destruct (Rocks.resolve d (col_or_default d (w_col task))) as [f'|];
      [|discriminate].
    destruct (nth_error fams f') as [c0|] eqn:Hc0; [|discriminate].
    destruct (Nat.eq_dec f' f) as [->|Hne].
    + destruct Hother as [Hres|Hkey]; [congruence|].
      apply (IH _ _ _ Happ (nth_error_update_family _ _ _ _ Hc0)).
      simpl. rewrite task_rows_other by exact Hkey. congruence.
    + apply (IH _ _ c Happ); [|exact Hk].
      now rewrite nth_error_update_family_other.
Qed.

Section RoundTrip.

Variable ukv_option_write_flush_k : ukv_options_t.
Variable ukv_option_read_transparent_k : ukv_options_t.
Variable sizeof_ukv_size_t : nat.

(** Calls that never write the entry of [key] in the family [f] leave the
    key without an entry there, and the handle table as it was. *)
Lemma after_writes_keeps_absent (d0 : Rocks.DB)
    (hs : list (Rocks.ColumnFamilyHandle * nat)) (col : ukv_collection_t)
    (key : ukv_key_t) (f : nat) (history : list write_call) :
  Rocks.handles d0 = (1%nat, 0%nat) :: hs ->
  collection_family d0 col = Some f ->
  0 <= key < 2 ^ 64 ->
  keys_are_64_bit history ->
  never_written d0 col key history ->
  forall (w : rocks_db_wrapper_t) (d : Rocks.DB) (c : Rocks.ColumnFamilyData),
    db w = Some d ->
    Rocks.handles d = Rocks.handles d0 ->
    nth_error (Rocks.families d) f = Some c ->
    Rocks.rows_get (to_slice key) (Rocks.cf_rows c) = None ->
    exists d' c',
      after_writes ukv_option_write_flush_k (Some w) history =
        Done (Some (with_db w d')) /\
      Rocks.handles d' = Rocks.handles d0 /\
      nth_error (Rocks.families d') f = Some c' /\
      Rocks.rows_get (to_slice key) (Rocks.cf_rows c') = None.
Proof.
  intros Hh Hf Hkey Hkeys Hnever.
  induction history as [|[[h c_options] tasks] rest IH];
    intros w d c Hd Hhd Hc Habsent.
  - exists d, c. simpl. repeat split; try assumption.
    unfold with_db. destruct w as [cols dd]. simpl in *. now rewrite Hd.
  - inversion Hkeys as [|? ? Hk1 Hkrest]; subst.
    inversion Hnever as [|? ? Hn1 Hnrest]; subst. simpl in Hk1, Hn1.
    destruct (ukv_write_outside_result ukv_option_write_flush_k h w d
                (List.length tasks) tasks
                c_options Hd (le_n _)) as (d1 & err & Hw & Hres).
    cbn [after_writes]. rewrite Hw. cbn [bind fst].
    assert (Hnext : exists c1,
               Rocks.handles d1 = Rocks.handles d0 /\
               nth_error (Rocks.families d1) f = Some c1 /\
               Rocks.rows_get (to_slice key) (Rocks.cf_rows c1) = None).
    { destruct Hres as [(_ & fams & Happ & ->)|(_ & ->)];
        [|exists c; repeat split; assumption].
      rewrite firstn_all in Happ.
      destruct (apply_tasks_keeps_absent d f (to_slice key) tasks)
        with (fams := Rocks.families d) (fams' := fams) (c := c)
        as (c1 & Hc1 & Hk1'); try assumption.
      - rewrite Forall_forall in Hk1, Hn1 |- *. intros task Hin.
        rewrite (col_or_default_family d hs) by congruence.
        rewrite (collection_family_handles d0 d) by exact Hhd.
        destruct (collection_family d0 (w_col task)) as [f'|] eqn:Efam;
          [|left; discriminate].
        destruct (Nat.eq_dec f' f) as [->|Hne]; [right|left; congruence].
        apply to_slice_differs; [exact Hkey|exact (Hk1 task Hin)|].
        intros Hsame. apply (Hn1 task Hin). split; congruence.
      - exists c1. repeat split; assumption. }
    destruct Hnext as (c1 & Hh1 & Hc1 & Hk1').
    destruct (IH Hkrest Hnrest (with_db w d1) d1 c1 eq_refl Hh1 Hc1 Hk1')
      as (d' & c' & Hrun & Hh' & Hc' & Hk').
    exists d', c'. repeat split; assumption.
Qed.

Lemma nth_error_bound {A} (l : list A) (i : nat) (a : A) :
  nth_error l i = Some a -> (i < List.length l)%nat.
Proof. intros H. apply nth_error_Some. rewrite H. discriminate. Qed.

(** A collection of a database just opened on a store without entries:
    the family it stands for, which holds no entry. *)
Lemma opened_collection_is_empty (ho : host_t) (c_config : option string)
    (c_db : ukv_t) (c_error : ukv_error_t) (w0 : rocks_db_wrapper_t)
    (d0 : Rocks.DB) (col : ukv_collection_t) :
  fst (ukv_open ho c_config c_db c_error) = Some w0 ->
  db w0 = Some d0 ->
  Forall (fun c => Rocks.cf_rows c = []) (disk ho) ->
  In col (ukv_default_collection_k :: columns w0) ->
  exists hs f c,
    Rocks.handles d0 = (1%nat, 0%nat) :: hs /\
    collection_family d0 col = Some f /\
    nth_error (Rocks.families d0) f = Some c /\
    Rocks.cf_rows c = [].
Proof.
  intros Hopen Hd Hdisk Hcol.
  destruct (ukv_open_opened _ _ _ _ _ _ Hopen Hd) as (Hfams & Hhs & Hcols).
  assert (Hempty : Forall (fun c => Rocks.cf_rows c = [])
                     (Rocks.families d0)).
  { rewrite Hfams. unfold stored_families.
    destruct (disk ho); [repeat constructor|exact Hdisk]. }
  assert (Hfound : exists f c,
             collection_family d0 col = Some f /\
             nth_error (Rocks.families d0) f = Some c).
  { destruct Hcol as [<-|Hin].
    - exists 0%nat. unfold collection_family. simpl.
      rewrite Hfams. unfold stored_families.
      destruct (disk ho); eexists; split; reflexivity.
    - apply In_nth_error in Hin. destruct Hin as [i Hi].
      pose proof (nth_error_bound _ _ _ Hi) as Hlt.
      rewrite Hcols, length_map, open_handles_length, length_map in Hlt.
      rewrite Hcols in Hi.
      destruct (opened_handles_name_families (stored_families ho)
                  (Rocks.next_handle d0) i col Hi) as [Hnz Hfam].
      destruct (nth_error (stored_families ho) i) as [c|] eqn:Hc.
      2:{ apply nth_error_None in Hc. lia. }
      destruct (family_of_resolve _ _ _ _ Hfam) as (f & Hr & Hn).
      exists f, c. split.
      + unfold collection_family. unfold ukv_default_collection_k.
        apply Nat.eqb_neq in Hnz. rewrite Hnz.
        unfold Rocks.resolve in Hr |- *. simpl in Hr. now rewrite Hhs.
      + now rewrite Hfams. }
  destruct Hfound as (f & c & Hf & Hc).
  eexists _, f, c. split; [exact Hhs|]. split; [exact Hf|].
  split; [exact Hc|].
  rewrite Forall_forall in Hempty. apply Hempty.
  now apply nth_error_In with f.
Qed.

(** C1: outside a transaction, for every collection of the open database,
    key and value, a single write of the value under the key followed by
    a single read of the key shows exactly the value (its length and its
    bytes), and a single read of a key the collection holds no entry for
    shows the length [ukv_val_len_missing_k]; and on a database opened on
    a store without entries, after any calls of [ukv_write] outside a
    transaction none of whose tasks writes the key in the collection
    (they may write other keys of the collection, and the key in other
    collections), a single read of the key shows the length
    [ukv_val_len_missing_k]. *)
Theorem write_then_read_returns_value :
  (forall (h1 h2 : host_t) (w : rocks_db_wrapper_t) (d : Rocks.DB)
          (c : Rocks.ColumnFamilyData) (task : write_task_t)
          (write_options read_options : ukv_options_t) (out : read_out)
          (c_arena : ukv_arena_t),
     serves h1 -> serves h2 ->
     db w = Some d ->
     Rocks.family_of (Rocks.families d) d (col_or_default d (w_col task))
       = Some c ->
     is_deleted task = false ->
     Z.of_nat (w_length task) < 2 ^ 32 ->
     (exists w' arena,
        ukv_write ukv_option_write_flush_k h1 (Some w) None 1 [task]
          write_options None = Done (Some w', None, None) /\
        ukv_read ukv_option_read_transparent_k sizeof_ukv_size_t h2 (Some w')
          None 1 [get_task (w_col task) (w_key task)] read_options out c_arena
          None =
        Done ({| c_found_lengths := Some [Z.of_nat (List.length (view task))];
                 c_found_values := Some (view task) |}, Some arena, None))
     /\
     (Rocks.rows_get (to_slice (w_key task)) (Rocks.cf_rows c) = None ->
      exists arena,
        ukv_read ukv_option_read_transparent_k sizeof_ukv_size_t h2 (Some w)
          None 1 [get_task (w_col task) (w_key task)] read_options out c_arena
          None =
        Done ({| c_found_lengths := Some [ukv_val_len_missing_k];
                 c_found_values := Some [] |}, Some arena, None)))
  /\
  (forall (ho : host_t) (c_config : option string) (c_db : ukv_t)
          (c_error : ukv_error_t) (w0 : rocks_db_wrapper_t) (d0 : Rocks.DB)
          (history : list write_call) (h2 : host_t)
          (col : ukv_collection_t) (key : ukv_key_t)
          (read_options : ukv_options_t) (out : read_out)
          (c_arena : ukv_arena_t),
     fst (ukv_open ho c_config c_db c_error) = Some w0 ->
     db w0 = Some d0 ->
     Forall (fun c => Rocks.cf_rows c = []) (disk ho) ->
     In col (ukv_default_collection_k :: columns w0) ->
     0 <= key < 2 ^ 64 ->
     keys_are_64_bit history ->
     never_written d0 col key history ->
     serves h2 ->
     exists w arena,
       after_writes ukv_option_write_flush_k (Some w0) history =
         Done (Some w) /\
       ukv_read ukv_option_read_transparent_k sizeof_ukv_size_t h2 (Some w)
         None 1 [get_task col key] read_options out c_arena None =
       Done ({| c_found_lengths := Some [ukv_val_len_missing_k];
                c_found_values := Some [] |}, Some arena, None)).
Proof.
  split.
  - intros h1 h2 w d c task write_options read_options out c_arena.
    exact (single_write_then_read ukv_option_write_flush_k
             ukv_option_read_transparent_k sizeof_ukv_size_t h1 h2 w d c
             task write_options read_options out c_arena).
  - intros ho c_config c_db c_error w0 d0 history h2 col key read_options
      out c_arena Hopen Hd Hdisk Hcol Hkey Hkeys Hnever Hs2.
    destruct (opened_collection_is_empty _ _ _ _ _ _ _ Hopen Hd Hdisk Hcol)
      as (hs & f & c & Hhs & Hf & Hc & Hrows).
    destruct (after_writes_keeps_absent d0 hs col key f history Hhs Hf Hkey
                Hkeys Hnever w0 d0 c Hd eq_refl Hc)
      as (d' & c' & Hrun & Hh' & Hc' & Hk'); [now rewrite Hrows|].
    assert (Hfam : Rocks.family_of (Rocks.families d') d'
                     (col_or_default d' col) = Some c').
    { unfold Rocks.family_of.
      rewrite (col_or_default_family d' hs) by congruence.
      rewrite (collection_family_handles d0 d') by exact Hh'.
      now rewrite Hf. }
    destruct (ukv_read_single ukv_option_read_transparent_k
                sizeof_ukv_size_t h2 (with_db w0 d') d' c' col key
                read_options out c_arena Hs2 eq_refl Hfam) as [arena Hread].
    exists (with_db w0 d'), arena. split; [exact Hrun|].
    unfold get_task. now rewrite Hread, Hk'.
Qed.

End RoundTrip.

(** ** The order of keys in the engine *)

(** X19: the engine compares keys as the byte strings [to_slice] hands it,
    least significant byte first: a key with the smaller low byte comes
    first whatever the higher bytes are, and on keys below 256 the order
    of the engine is the order of the numbers. *)
Theorem engine_orders_keys_by_low_byte (a b : ukv_key_t) :
  (a mod 256 < b mod 256 ->
   Rocks.Compare (to_slice a) (to_slice b) = Lt) /\
  (0 <= a < 256 -> 0 <= b < 256 ->
   Rocks.Compare (to_slice a) (to_slice b) = (a ?= b)).
Proof.
  unfold to_slice. split.
  - intros Hlt. cbn [le_bytes Rocks.Compare].
    apply Z.compare_lt_iff in Hlt. now rewrite Hlt.
  - intros Ha Hb. cbn [le_bytes Rocks.Compare].
    rewrite (Z.mod_small a 256), (Z.mod_small b 256) by lia.
    rewrite (Z.div_small a 256), (Z.div_small b 256) by lia.
    destruct (a ?= b); reflexivity.
Qed.

(** ** The neighbourhood helpers of ukv_graph.hpp *)

(** X13: [invert] exchanges the roles in pairs, source with target and
    any with unknown: inverting twice gives the role back, no role is its
    own inverse, and the ranges [neighbors] gives for a role and for its
    inverse together span as many neighbourships as the range for the
    role "any". *)
Theorem invert_is_an_involution (sizeof_degree : nat) (bytes : list byte_t)
    (role : Neighborhood.ukv_vertex_role_t) :
  Neighborhood.invert Neighborhood.ukv_vertex_source_k =
    Neighborhood.ukv_vertex_target_k /\
  Neighborhood.invert Neighborhood.ukv_vertex_target_k =
    Neighborhood.ukv_vertex_source_k /\
  Neighborhood.invert Neighborhood.ukv_vertex_role_any_k =
    Neighborhood.ukv_vertex_role_unknown_k /\
  Neighborhood.invert Neighborhood.ukv_vertex_role_unknown_k =
    Neighborhood.ukv_vertex_role_any_k /\
  Neighborhood.invert (Neighborhood.invert role) = role /\
  Neighborhood.invert role <> role /\
  (Neighborhood.range_size
     (Neighborhood.neighbors sizeof_degree bytes role) +
   Neighborhood.range_size
     (Neighborhood.neighbors sizeof_degree bytes (Neighborhood.invert role))
   = Neighborhood.range_size
       (Neighborhood.neighbors sizeof_degree bytes
          Neighborhood.ukv_vertex_role_any_k))%nat.
Proof.
  repeat split; try reflexivity; try (destruct role; simpl; congruence).
  unfold Neighborhood.neighbors.
  destruct (List.length bytes <? _)%nat; destruct role; simpl; lia.
Qed.

(** X14: the comparisons of a vertex id with a neighbourship agree with
    each other: [==] gives the same answer from either side, holds exactly
    when [<] holds from neither side, and [<] never holds from both. *)
Theorem vertex_id_against_neighborship (v : ukv_key_t)
    (b : Graph.neighborship_t) :
  Neighborhood.key_eq_ship v b = Neighborhood.ship_eq_key b v /\
  Neighborhood.key_eq_ship v b =
    negb (Neighborhood.key_lt_ship v b) && negb (Neighborhood.ship_lt_key b v)
  /\
  Neighborhood.key_lt_ship v b && Neighborhood.ship_lt_key b v = false.
Proof.
  unfold Neighborhood.key_eq_ship, Neighborhood.ship_eq_key,
    Neighborhood.key_lt_ship, Neighborhood.ship_lt_key.
  destruct (Z.eqb_spec v (Graph.neighbor_id b)),
    (Z.eqb_spec (Graph.neighbor_id b) v),
    (Z.ltb_spec v (Graph.neighbor_id b)),
    (Z.ltb_spec (Graph.neighbor_id b) v); simpl; repeat split; try lia.
Qed.

(** X15: for every value and every size of a degree, [neighbors] with the
    role "any" spans as many neighbourships as the roles "source" and
    "target" together; [neighborhood_t::size()] of the neighbourhood parsed
    from the value is that number; the inverse of "any" spans none; and a
    value shorter than two degrees gives the empty range for every
    role. *)
Theorem neighborhood_counts_both_roles (sizeof_degree : nat)
    (center_vertex : ukv_key_t) (bytes : list byte_t) :
  Neighborhood.range_size
    (Neighborhood.neighbors sizeof_degree bytes
       Neighborhood.ukv_vertex_role_any_k) =
  (Neighborhood.range_size
     (Neighborhood.neighbors sizeof_degree bytes
        Neighborhood.ukv_vertex_source_k) +
   Neighborhood.range_size
     (Neighborhood.neighbors sizeof_degree bytes
        Neighborhood.ukv_vertex_target_k))%nat /\
  Neighborhood.size
    (Neighborhood.make_neighborhood sizeof_degree center_vertex bytes) =
  Neighborhood.range_size
    (Neighborhood.neighbors sizeof_degree bytes
       Neighborhood.ukv_vertex_role_any_k) /\
  Neighborhood.range_size
    (Neighborhood.neighbors sizeof_degree bytes
       (Neighborhood.invert Neighborhood.ukv_vertex_role_any_k)) = 0%nat /\
  ((List.length bytes < 2 * sizeof_degree)%nat ->
   forall role,
     Neighborhood.neighbors sizeof_degree bytes role = Neighborhood.no_ships).
Proof.
  unfold Neighborhood.size, Neighborhood.make_neighborhood,
    Neighborhood.neighbors.
  cbn [Neighborhood.invert Neighborhood.targets Neighborhood.sources].
  destruct (Nat.ltb_spec (List.length bytes) (2 * sizeof_degree));
    cbn [Neighborhood.range_size]; repeat split;
    try (intros; (reflexivity || lia)).
Qed.

(** ** The bookkeeping of the transaction stress test *)

Lemma replay_before_iff (a b : Z * Stress.operation_gt) :
  Stress.replay_before a b = true <->
  fst a < fst b \/
  (fst a = fst b /\
   Stress.code (Stress.type (snd a)) < Stress.code (Stress.type (snd b))).
Proof.
  unfold Stress.replay_before.
  rewrite orb_true_iff, andb_true_iff, !Z.ltb_lt, Z.eqb_eq. reflexivity.
Qed.

Lemma code_inj (s t : Stress.operation_code_t) :
  Stress.code s = Stress.code t -> s = t.
Proof. destruct s, t; simpl; intros H; congruence || discriminate. Qed.

(** X16: the comparator the stress test sorts its log with is a strict
    weak order, as [std::sort] requires: it is irreflexive, asymmetric and
    transitive, and two entries neither of which comes before the other
    have the same sequence number and the same operation code. *)
Theorem replay_order_is_strict (a b c : Z * Stress.operation_gt) :
  Stress.replay_before a a = false /\
  (Stress.replay_before a b = true -> Stress.replay_before b a = false) /\
  (Stress.replay_before a b = true -> Stress.replay_before b c = true ->
   Stress.replay_before a c = true) /\
  (Stress.replay_before a b = false -> Stress.replay_before b a = false ->
   fst a = fst b /\ Stress.type (snd a) = Stress.type (snd b)).
Proof.
  repeat split.
  - apply not_true_is_false. rewrite replay_before_iff. lia.
  - intros H. apply not_true_is_false. rewrite replay_before_iff in *. lia.
  - intros H1 H2. rewrite replay_before_iff in *. lia.
  - apply not_true_iff_false in H, H0. rewrite replay_before_iff in *. lia.
  - apply not_true_iff_false in H, H0. rewrite replay_before_iff in *.
    apply code_inj. lia.
Qed.

Lemma add_updated_keys_from_all (operations : list Stress.operation_t)
    (n : nat) :
  forall idx m,
    (idx + n <= List.length operations)%nat ->
    exists m',
      Stress.add_updated_keys_from operations idx n m = Done m' /\
      forall k,
        non_null (m' k) =
        non_null (m k)
        || existsb
             (fun op =>
                (Stress.is_remove (Stress.op_type op)
                 || Stress.is_insert (Stress.op_type op))
                && (Stress.op_key op =? k))
             (firstn n (skipn idx operations)).
Proof.
  induction n as [|n IH]; intros idx m Hle; simpl.
  - exists m. split; [reflexivity|]. intros k. now rewrite orb_false_r.
  - destruct (nth_error operations idx) as [op|] eqn:Hnth.
    2:{ apply nth_error_None in Hnth. lia. }
    unfold at_index; rewrite Hnth; simpl.
    rewrite (skipn_nth_error _ _ _ Hnth); simpl.
    destruct (Stress.is_remove (Stress.op_type op)
              || Stress.is_insert (Stress.op_type op)) eqn:Ew; simpl.
    + destruct (IH (S idx)
                  (Stress.assign m (Stress.op_key op)
                     (Stress.is_insert (Stress.op_type op))))
        as (m' & Hrun & Hm'); [lia|].
      exists m'. split; [exact Hrun|]. intros k. rewrite Hm'.
      unfold Stress.assign. rewrite (Z.eqb_sym (Stress.op_key op) k).
      destruct (k =? Stress.op_key op); simpl;
        rewrite ?orb_true_r; reflexivity.
    + destruct (IH (S idx) m) as (m' & Hrun & Hm'); [lia|].
      exists m'. split; [exact Hrun|]. intros k. now rewrite Hm'.
Qed.

Lemma will_succeed_from_all (operations : list Stress.operation_t)
    (m : Stress.updated_keys_t) (n : nat) :
  forall idx,
    (idx + n <= List.length operations)%nat ->
    Stress.will_succeed_from operations idx n m =
    Done (forallb
            (fun op =>
               negb (Stress.op_watch op && non_null (m (Stress.op_key op))))
            (firstn n (skipn idx operations))).
Proof.
  induction n as [|n IH]; intros idx Hle; simpl; [reflexivity|].
  destruct (nth_error operations idx) as [op|] eqn:Hnth.
  2:{ apply nth_error_None in Hnth. lia. }
  unfold at_index; rewrite Hnth; simpl.
  rewrite (skipn_nth_error _ _ _ Hnth); simpl.
  destruct (Stress.op_watch op && non_null (m (Stress.op_key op)));
    simpl; [reflexivity|].
  apply IH. lia.
Qed.

Lemma forallb_pointwise {A} (f g : A -> bool) (l : list A) :
  (forall a, f a = g a) -> forallb f l = forallb g l.
Proof.
  intros H. induction l as [|a l IH]; simpl; [reflexivity|].
  now rewrite H, IH.
Qed.

(** X17: once [add_updated_keys] has recorded the operations of a
    committed transaction, [will_succeed] accepts a later transaction
    exactly when none of its watched operations is on a key that was
    recorded before or that the committed transaction inserted or removed;
    the keys the committed transaction only selected fail nobody. *)
Theorem recorded_writes_fail_later_watchers
    (committed later : list Stress.operation_t) (n1 n2 : nat)
    (updated_keys : Stress.updated_keys_t) :
  (n1 <= List.length committed)%nat ->
  (n2 <= List.length later)%nat ->
  exists updated_keys',
    Stress.add_updated_keys committed n1 updated_keys = Done updated_keys' /\
    Stress.will_succeed later n2 updated_keys' =
    Done (forallb
            (fun op =>
               negb (Stress.op_watch op
                     && (non_null (updated_keys (Stress.op_key op))
                         || Stress.writes_key committed n1
                              (Stress.op_key op))))
            (firstn n2 later)).
Proof.
  intros H1 H2.
  destruct (add_updated_keys_from_all committed n1 0 updated_keys H1)
    as (m' & Hrun & Hm').
  exists m'. split; [exact Hrun|].
  unfold Stress.will_succeed. rewrite will_succeed_from_all by exact H2.
  simpl skipn. f_equal. apply forallb_pointwise. intros op.
  now rewrite Hm'.
Qed.

(** ** The further properties at concrete requests *)

(** Witness of X5: the open of the healthy host, whose path is empty. *)
Lemma open_registers_stored_families_witness :
  exists w d,
    ukv_open healthy_host None None None = (Some w, None) /\
    db w = Some d /\
    Rocks.families d = stored_families healthy_host /\
    List.length (columns w) = List.length (stored_families healthy_host) /\
    forall i handle,
      nth_error (columns w) i = Some handle ->
      handle <> 0%nat /\
      Rocks.family_of (Rocks.families d) d handle
      = nth_error (stored_families healthy_host) i.
Proof.
  exact (open_registers_stored_families healthy_host None None None eq_refl).
Defined.


(** Witness of X7: a batch read of the keys 42 and 8 on the database that
    holds key 42. *)
Lemma read_sets_outputs_or_error_witness :
  exists out' c_arena' err,
    ukv_read read_transparent_bit size_t_bytes healthy_host
      (Some wrapper_with_42) None 2
      [get_task ukv_default_collection_k 42;
       get_task ukv_default_collection_k 8] 0 no_read_out None None =
    Done (out', c_arena', err) /\
    ((err = None /\
      exists lens vals,
        out' = {| c_found_lengths := Some lens;
                  c_found_values := Some vals |}
        /\ List.length lens = 2%nat)
     \/ (err <> None /\ out' = no_read_out)).
Proof.
  exact (read_sets_outputs_or_error read_transparent_bit size_t_bytes
           healthy_host wrapper_with_42 engine_with_42 None 2
           [get_task ukv_default_collection_k 42;
            get_task ukv_default_collection_k 8] 0 no_read_out None
           eq_refl (le_n 2) eq_refl eq_refl).
Defined.

(** Witness of X8: the three scans over the six keys. *)
Lemma scan_sets_outputs_or_error_witness :
  (None = @None string /\
   exists keys lens,
     {| c_found_keys := Some [Some 10; Some 12; None];
        c_found_lens := Some [Some 2; Some 0; None] |} =
     {| c_found_keys := Some keys; c_found_lens := Some lens |} /\
     List.length keys = 3%nat /\ List.length lens = 3%nat)
  \/ (@None string <> None /\
      {| c_found_keys := Some [Some 10; Some 12; None];
         c_found_lens := Some [Some 2; Some 0; None] |} = no_scan_out).
Proof.
  exact (scan_sets_outputs_or_error read_transparent_bit healthy_host
           db_with_six_keys None 3 three_scans 0 no_scan_out
           {| c_found_keys := Some [Some 10; Some 12; None];
              c_found_lens := Some [Some 2; Some 0; None] |}
           None (Some {| output_tape := 36 |}) None eq_refl).
Defined.

(** Witness of X9: the two writes of key 7 on the fresh database. *)
Lemma committed_transaction_is_a_batch_write_witness :
  exists t t' t'' d',
    ukv_txn_begin (Some fresh_wrapper) 0 0 None None = Done (Some t, None) /\
    ukv_write write_flush_bit healthy_host (Some fresh_wrapper) (Some t) 2
      two_writes_of_7 0 None = Done (Some fresh_wrapper, Some t', None) /\
    ukv_txn_commit healthy_host fresh_engine (Some t') 0 None =
      Done (t'', d', None) /\
    ukv_write write_flush_bit healthy_host (Some fresh_wrapper) None 2
      two_writes_of_7 0 None =
      Done (Some (with_db fresh_wrapper d'), None, None) /\
    apply_tasks fresh_engine (Rocks.families fresh_engine)
      (firstn 2 two_writes_of_7) = Some (Rocks.families d').
Proof.
  apply (committed_transaction_is_a_batch_write write_flush_bit healthy_host
           fresh_wrapper fresh_engine 2 two_writes_of_7 0 0 0 0 None
           (fun _ => eq_refl) eq_refl (le_n 2)).
  repeat constructor; discriminate.
Defined.

(** Witness of X10: key 42 written in a transaction on the fresh database
    and read with the transparent option. *)
Lemma transaction_reads_its_own_write_witness :
  exists t t' arena arena',
    ukv_txn_begin (Some fresh_wrapper) 0 0 None None = Done (Some t, None) /\
    ukv_write write_flush_bit healthy_host (Some fresh_wrapper) (Some t) 1
      [put_task ukv_default_collection_k 42 purpose_of_life] 0 None =
      Done (Some fresh_wrapper, Some t', None) /\
    ukv_read read_transparent_bit size_t_bytes healthy_host
      (Some fresh_wrapper) (Some t') 1
      [get_task ukv_default_collection_k 42] read_transparent_bit
      no_read_out None None =
    Done ({| c_found_lengths := Some [15];
             c_found_values := Some purpose_of_life |}, Some arena, None) /\
    ukv_read read_transparent_bit size_t_bytes healthy_host
      (Some fresh_wrapper) None 1 [get_task ukv_default_collection_k 42]
      read_transparent_bit no_read_out None None =
    Done ({| c_found_lengths := Some [ukv_val_len_missing_k];
             c_found_values := Some [] |}, Some arena', None).
Proof.
  apply (transaction_reads_its_own_write write_flush_bit
           read_transparent_bit size_t_bytes healthy_host healthy_host
           fresh_wrapper fresh_engine
           {| Rocks.cf_name := Rocks.kDefaultColumnFamilyName;
              Rocks.cf_rows := [] |}
           (put_task ukv_default_collection_k 42 purpose_of_life)
           0 0 0 read_transparent_bit None no_read_out None
           (fun _ => eq_refl) healthy_host_serves eq_refl eq_refl eq_refl
           eq_refl).
  discriminate.
Defined.

(** Witness of X11: key 42 is written outside the transaction begun on the
    fresh database. *)
Lemma transaction_reads_its_snapshot_witness :
  exists t w' err,
    ukv_txn_begin (Some fresh_wrapper) 0 0 None None = Done (Some t, None) /\
    ukv_write write_flush_bit healthy_host (Some fresh_wrapper) None 1
      [put_task ukv_default_collection_k 42 purpose_of_life] 0 None =
      Done (Some w', None, err) /\
    forall batch n reads read_options out c_arena c_error,
      ukv_read read_transparent_bit size_t_bytes healthy_host (Some w')
        (Some {| Rocks.txn_snapshot := Rocks.txn_snapshot t;
                 Rocks.txn_batch := batch |})
        n reads read_options out c_arena c_error =
      ukv_read read_transparent_bit size_t_bytes healthy_host
        (Some fresh_wrapper)
        (Some {| Rocks.txn_snapshot := Rocks.txn_snapshot t;
                 Rocks.txn_batch := batch |})
        n reads read_options out c_arena c_error.
Proof.
  exact (transaction_reads_its_snapshot write_flush_bit read_transparent_bit
           size_t_bytes healthy_host healthy_host fresh_wrapper fresh_engine
           1 [put_task ukv_default_collection_k 42 purpose_of_life] 0 0 0
           None eq_refl (le_n 1)).
Defined.

(** Witness of X12: the two writes of key 7, the later one of 15 bytes. *)
Lemma last_entry_of_a_batch_wins_witness :
  exists w' arena,
    ukv_write write_flush_bit healthy_host (Some fresh_wrapper) None 2
      two_writes_of_7 0 None = Done (Some w', None, None) /\
    ukv_read read_transparent_bit size_t_bytes healthy_host (Some w') None 1
      [get_task ukv_default_collection_k 7] 0 no_read_out None None =
    Done ({| c_found_lengths := Some [15];
             c_found_values := Some purpose_of_life |}, Some arena, None).
Proof.
  apply (last_entry_of_a_batch_wins write_flush_bit read_transparent_bit
           size_t_bytes healthy_host healthy_host fresh_wrapper fresh_engine
           [put_task ukv_default_collection_k 7 [1; 2; 3]]
           (put_task ukv_default_collection_k 7 purpose_of_life)
           0 0 no_read_out None (fun _ => eq_refl) healthy_host_serves
           eq_refl).
  - repeat constructor; discriminate.
  - reflexivity.
  - reflexivity.
Defined.

(** Witness of X17: the committed transaction inserted key 1, which the
    later transaction watches. *)
Lemma recorded_writes_fail_later_watchers_witness :
  exists updated_keys',
    Stress.add_updated_keys committed_operations 2 no_updated_keys =
      Done updated_keys' /\
    Stress.will_succeed later_operations 1 updated_keys' = Done false.
Proof.
  exact (recorded_writes_fail_later_watchers committed_operations
           later_operations 2 1 no_updated_keys (le_n 2) (le_n 1)).
Defined.

(** Witness of X19: key 256 comes before key 1, and key 5 before key 10. *)
Lemma engine_orders_keys_by_low_byte_witness :
  Rocks.Compare (to_slice 256) (to_slice 1) = Lt /\
  Rocks.Compare (to_slice 5) (to_slice 10) = Lt.
Proof.
  split.
  - apply (proj1 (engine_orders_keys_by_low_byte 256 1)). reflexivity.
  - apply (proj2 (engine_orders_keys_by_low_byte 5 10)); lia.
Defined.

(** Witness of X15: a value of three bytes where a degree takes four. *)
Lemma neighborhood_counts_both_roles_witness :
  Neighborhood.neighbors 4 [1; 0; 0] Neighborhood.ukv_vertex_role_any_k =
  Neighborhood.no_ships.
Proof.
  apply (proj2 (proj2 (proj2 (neighborhood_counts_both_roles 4 0 [1; 0; 0])))).
  simpl. lia.
Defined.

(** Witness of C1: key 42 of the default collection of the fresh database,
    absent before the write and read back after it; and key 42 of the
    default collection of the database with two collections, after calls
    that write key 42 of the other collection and key 7 of the default
    one. *)
Lemma write_then_read_returns_value_witness :
  ((exists w' arena,
      ukv_write write_flush_bit healthy_host (Some fresh_wrapper) None 1
        [put_task ukv_default_collection_k 42 purpose_of_life] 0 None =
      Done (Some w', None, None) /\
      ukv_read read_transparent_bit size_t_bytes healthy_host (Some w') None 1
        [get_task ukv_default_collection_k 42] 0 no_read_out None None =
      Done ({| c_found_lengths := Some [15];
               c_found_values := Some purpose_of_life |}, Some arena, None))
   /\
   (exists arena,
      ukv_read read_transparent_bit size_t_bytes healthy_host
        (Some fresh_wrapper) None 1 [get_task ukv_default_collection_k 42] 0
        no_read_out None None =
      Done ({| c_found_lengths := Some [ukv_val_len_missing_k];
               c_found_values := Some [] |}, Some arena, None)))
  /\
  (exists w arena,
     after_writes write_flush_bit (Some two_collection_wrapper)
       writes_elsewhere = Done (Some w) /\
     ukv_read read_transparent_bit size_t_bytes healthy_host (Some w) None 1
       [get_task ukv_default_collection_k 42] 0 no_read_out None None =
     Done ({| c_found_lengths := Some [ukv_val_len_missing_k];
              c_found_values := Some [] |}, Some arena, None)).
Proof.
  split.
  - destruct (proj1 (write_then_read_returns_value write_flush_bit
                       read_transparent_bit size_t_bytes)
                healthy_host healthy_host fresh_wrapper fresh_engine
                {| Rocks.cf_name := Rocks.kDefaultColumnFamilyName;
                   Rocks.cf_rows := [] |}
                (put_task ukv_default_collection_k 42 purpose_of_life)
                0 0 no_read_out None
                healthy_host_serves healthy_host_serves eq_refl eq_refl
                eq_refl eq_refl) as [Hwritten Habsent].
    split; [exact Hwritten|exact (Habsent eq_refl)].
  - apply (proj2 (write_then_read_returns_value write_flush_bit
                    read_transparent_bit size_t_bytes)
             two_collection_host None None None two_collection_wrapper
             two_collection_engine writes_elsewhere healthy_host
             ukv_default_collection_k 42 0 no_read_out None eq_refl
             eq_refl).
    + repeat constructor.
    + now left.
    + lia.
    + repeat (constructor; try (simpl; lia)).
    + repeat constructor; intros [Hcol Hkey]; simpl in Hcol, Hkey;
        discriminate.
    + exact healthy_host_serves.
Defined.
